(** * QueueCTL: the job store, its claim protocol and the retry / DLQ rules

    A shallow embedding of [queuectl/store.py], [queuectl/config.py] and the
    job handling of [queuectl/worker.py], followed by the properties of the
    specification that concern them.

    Modelling conventions.
    - A Python [str] is a sequence of Unicode code points: [str := list N].
      SQLite stores TEXT as UTF-8 and compares TEXT bytewise; UTF-8 keeps the
      order of code points, so the bytewise order of two stored texts is the
      lexicographic order of their code points ([str_compare]).
    - Python integers and INTEGER columns are [Z]; the [attempts] column is
      only ever written as [0] and [attempts + 1], it is an [N].
    - The [jobs] table is a finite map from the primary key [id] to the other
      columns of the row, the [config] table a finite map from key to value.
    - Every store method opens its own connection and runs alone: an
      operation is a function from the committed database to an outcome and
      the next committed database.  An exception raised before [commit]
      leaves the database as it was.
    - Clock readings are inputs of the operations.  A [datetime] has the
      range of Python's (years 1 to 9999), and arithmetic that leaves it
      raises [OverflowError].  The 64-bit range of the integers bound to a
      statement and lock time-outs between processes are outside the
      model. *)

From Stdlib Require Import ZArith NArith Ascii String DecimalString.
From stdpp Require Import gmap strings list fin_maps sorting.

Open Scope Z_scope.

(** ** Text *)

Definition str := list N.

(** A literal of the source, as code points. *)
Definition lit (s : string) : str :=
  N_of_ascii <$> String.list_ascii_of_string s.

(** [str(n)] / [f"{n}"] for an integer. *)
Definition str_of_int (n : Z) : str := lit (NilZero.string_of_int (Z.to_int n)).

Arguments lit : simpl never.
Arguments str_of_int : simpl never.

(** Order of two TEXT values under SQLite's BINARY collation. *)
Fixpoint str_compare (a b : str) : comparison :=
  match a, b with
  | [], [] => Eq
  | [], _ :: _ => Lt
  | _ :: _, [] => Gt
  | x :: a', y :: b' =>
      match N.compare x y with
      | Eq => str_compare a' b'
      | c => c
      end
  end.

Definition str_leb (a b : str) : bool :=
  match str_compare a b with Gt => false | _ => true end.

Definition str_ltb (a b : str) : bool :=
  match str_compare a b with Lt => true | _ => false end.

(** Number of bytes of one code point, and of a text, in UTF-8. *)
Definition utf8_width (c : N) : nat :=
  if (c <? 128)%N then 1
  else if (c <? 2048)%N then 2
  else if (c <? 65536)%N then 3
  else 4.

Definition utf8_length (s : str) : nat :=
  foldr (λ c total, utf8_width c + total)%nat 0%nat s.

(** [s[:n] if s else None] *)
Definition head_or_none (n : Z) (s : option str) : option str :=
  match s with
  | None => None
  | Some [] => None
  | Some t => Some (take (Z.to_nat n) t)
  end.

(** ** Exceptions and outcomes *)

Inductive exn : Type :=
  | ValueError (msg : str)
  | IntegrityError (msg : str)
  | OverflowError (msg : str).

Definition exn_str (e : exn) : str :=
  match e with
  | ValueError msg => msg
  | IntegrityError msg => msg
  | OverflowError msg => msg
  end.

Inductive result (A : Type) : Type :=
  | Ok (a : A)
  | Raise (e : exn).
Arguments Ok {A} a.
Arguments Raise {A} e.

#[export] Instance result_ret : MRet result := λ A a, Ok a.

#[export] Instance result_bind : MBind result := λ A B k r,
  match r with
  | Ok a => k a
  | Raise e => Raise e
  end.

(** ** Data model *)

Inductive job_state : Type := pending | processing | completed | failed | dead.

#[export] Instance job_state_eq_dec : EqDecision job_state.
Proof. solve_decision. Defined.

Definition state_name (st : job_state) : str :=
  match st with
  | pending => lit "pending"
  | processing => lit "processing"
  | completed => lit "completed"
  | failed => lit "failed"
  | dead => lit "dead"
  end.

(** A row of [jobs], without its key. *)
Record job : Type := mk_job {
  command : str;
  state : job_state;
  attempts : N;
  max_retries : Z;
  created_at : str;
  updated_at : str;
  started_at : option str;
  finished_at : option str;
  result_code : option Z;
  last_error : option str;
  next_run_at : option str;
  stdout : option str;
  stderr : option str;
  priority : Z
}.

(** The dictionary handed to [enqueue_job]; [None] is an absent key. *)
Record job_data : Type := mk_job_data {
  jd_id : str;
  jd_command : str;
  jd_max_retries : option Z;
  jd_next_run_at : option str;
  jd_priority : option Z
}.

Record store : Type := mk_store {
  jobs : gmap str job;
  config : gmap str str
}.

Definition with_jobs (t : gmap str job) (s : store) : store :=
  {| jobs := t; config := config s |}.

(** An aware UTC [datetime], as its count of microseconds since
    1970-01-01T00:00:00+00:00; [datetime.min] and [datetime.max]. *)
Definition datetime := Z.

Definition datetime_min : datetime := -62135596800000000.
Definition datetime_max : datetime := 253402300799999999.

(** The length in microseconds of [timedelta(seconds=d)], for an integer
    [d]. *)
Definition timedelta_seconds (d : Z) : Z := d * 1000000.

(** [timedelta(seconds=d)]: its whole days must fit a C [int] and be at
    most 999,999,999 in magnitude. *)
Definition timedelta (d : Z) : result Z :=
  let days := d / 86400 in
  if (days <? -2147483648) || (2147483647 <? days) then
    Raise (OverflowError (lit "Python int too large to convert to C int"))
  else if 999999999 <? Z.abs days then
    Raise (OverflowError (lit "days=" ++ str_of_int days ++
                          lit "; must have magnitude <= 999999999"))
  else Ok (timedelta_seconds d).

(** [t + delta] for a [datetime] and the length of a [timedelta]. *)
Definition datetime_add (t : datetime) (delta : Z) : result datetime :=
  if (datetime_min <=? t + delta) && (t + delta <=? datetime_max) then
    Ok (t + delta)
  else Raise (OverflowError (lit "date value out of range")).

(** ** [queuectl/store.py] *)

Module Store.

(** [UPDATE jobs SET ... WHERE id = ? AND guard]: the table after the
    statement and [cursor.rowcount]. *)
Definition sql_update (job_id : str) (guard : job → bool) (assign : job → job)
    (t : gmap str job) : gmap str job * Z :=
  match t !! job_id with
  | Some r => if guard r then (<[job_id := assign r]> t, 1) else (t, 0)
  | None => (t, 0)
  end.

(** [enqueue_job]: the INSERT fails on a primary key that exists. *)
Definition enqueue_job (now : str) (jd : job_data) (s : store) : result store :=
  match jobs s !! jd_id jd with
  | Some _ => Raise (IntegrityError (lit "UNIQUE constraint failed: jobs.id"))
  | None =>
      let row :=
        {| command := jd_command jd;
           state := pending;
           attempts := 0;
           max_retries := default 3 (jd_max_retries jd);
           created_at := now;
           updated_at := now;
           started_at := None;
           finished_at := None;
           result_code := None;
           last_error := None;
           next_run_at := jd_next_run_at jd;
           stdout := None;
           stderr := None;
           priority := default 0 (jd_priority jd) |} in
      Ok (with_jobs (<[jd_id jd := row]> (jobs s)) s)
  end.

(** [state='pending' AND (next_run_at IS NULL OR next_run_at <= ?)] *)
Definition claimable (now : str) (r : job) : bool :=
  bool_decide (state r = pending) &&
  match next_run_at r with
  | None => true
  | Some t => str_leb t now
  end.

(** [ORDER BY priority DESC, created_at ASC]: row [a] comes strictly
    before row [b]. *)
Definition sorts_before (a b : job) : bool :=
  (priority b <? priority a) ||
  ((priority a =? priority b) && str_ltb (created_at a) (created_at b)).

(** [LIMIT 1] of the ordered rows. *)
Fixpoint first_by_order (rows : list (str * job)) : option (str * job) :=
  match rows with
  | [] => None
  | x :: rest =>
      match first_by_order rest with
      | Some y => if sorts_before y.2 x.2 then Some y else Some x
      | None => Some x
      end
  end.

(** The SELECT of [claim_job]: the id of the row to claim. *)
Definition select_claimable (now : str) (t : gmap str job) : option str :=
  fst <$> first_by_order (filter (λ kr, claimable now kr.2) (map_to_list t)).

(** The SET clause of the claim. *)
Definition claim_set (now : str) (r : job) : job :=
  {| command := command r;
     state := processing;
     attempts := attempts r + 1;
     max_retries := max_retries r;
     created_at := created_at r;
     updated_at := now;
     started_at := Some now;
     finished_at := finished_at r;
     result_code := result_code r;
     last_error := last_error r;
     next_run_at := next_run_at r;
     stdout := stdout r;
     stderr := stderr r;
     priority := priority r |}.

(** [claim_job] from the guarded UPDATE on: the update of the selected id,
    the roll-back when no row was changed, the read-back and the commit. *)
Definition claim_selected (now job_id : str) (s : store)
    : option (str * job) * store :=
  let '(t, rowcount) :=
    sql_update job_id (λ r, bool_decide (state r = pending)) (claim_set now)
      (jobs s) in
  if rowcount =? 0 then (None, s)
  else
    match t !! job_id with
    | Some r => (Some (job_id, r), with_jobs t s)
    | None => (None, s)  (* no row to read back: cannot follow an update *)
    end.

Definition claim_job (now : str) (s : store) : option (str * job) * store :=
  match select_claimable now (jobs s) with
  | None => (None, s)
  | Some job_id => claim_selected now job_id s
  end.

Definition completed_set (now : str) (code : Z) (out err : option str)
    (r : job) : job :=
  {| command := command r;
     state := completed;
     attempts := attempts r;
     max_retries := max_retries r;
     created_at := created_at r;
     updated_at := now;
     started_at := started_at r;
     finished_at := Some now;
     result_code := Some code;
     last_error := last_error r;
     next_run_at := next_run_at r;
     stdout := out;
     stderr := err;
     priority := priority r |}.

Definition mark_job_completed (now job_id : str) (result_code : Z)
    (stdout stderr : option str) (s : store) : result store :=
  let truncated_stdout := head_or_none 10000 stdout in
  let truncated_stderr := head_or_none 10000 stderr in
  let '(t, _) :=
    sql_update job_id (λ _, true)
      (completed_set now result_code truncated_stdout truncated_stderr)
      (jobs s) in
  Ok (with_jobs t s).

Definition dead_set (now : str) (code : Z) (error out err : option str)
    (r : job) : job :=
  {| command := command r;
     state := dead;
     attempts := attempts r;
     max_retries := max_retries r;
     created_at := created_at r;
     updated_at := now;
     started_at := started_at r;
     finished_at := Some now;
     result_code := Some code;
     last_error := error;
     next_run_at := next_run_at r;
     stdout := out;
     stderr := err;
     priority := priority r |}.

Definition retry_set (now : str) (code : Z) (error : option str)
    (next_run : str) (out err : option str) (r : job) : job :=
  {| command := command r;
     state := pending;
     attempts := attempts r;
     max_retries := max_retries r;
     created_at := created_at r;
     updated_at := now;
     started_at := started_at r;
     finished_at := finished_at r;
     result_code := Some code;
     last_error := error;
     next_run_at := Some next_run;
     stdout := out;
     stderr := err;
     priority := priority r |}.

(** The SET clause of the DLQ replay, with or without [max_retries=?]. *)
Definition replay_set (now : str) (retries : option Z) (r : job) : job :=
  {| command := command r;
     state := pending;
     attempts := 0;
     max_retries := default (max_retries r) retries;
     created_at := created_at r;
     updated_at := now;
     started_at := started_at r;
     finished_at := finished_at r;
     result_code := result_code r;
     last_error := last_error r;
     next_run_at := None;
     stdout := stdout r;
     stderr := stderr r;
     priority := priority r |}.

Definition retry_job (now job_id : str) (max_retries : option Z) (s : store)
    : result store :=
  match jobs s !! job_id with
  | None => Raise (ValueError (lit "Job " ++ job_id ++ lit " not found"))
  | Some row =>
      if bool_decide (state row ≠ dead) then
        Raise (ValueError (lit "Job " ++ job_id ++
                           lit " is not in DLQ (current state: " ++
                           state_name (state row) ++ lit ")"))
      else
        let '(t, _) :=
          sql_update job_id (λ _, true) (replay_set now max_retries)
            (jobs s) in
        Ok (with_jobs t s)
  end.

(** [INSERT OR REPLACE INTO config] *)
Definition set_config (key value : str) (s : store) : result store :=
  Ok {| jobs := jobs s; config := <[key := value]> (config s) |}.

Definition get_config (key : str) (s : store) : option str :=
  config s !! key.

Definition get_job (job_id : str) (s : store) : option job :=
  jobs s !! job_id.

Section Clock.

(** [datetime.isoformat()] *)
Variable isoformat : datetime → str.

(** [now] is the text of the first clock reading, [clock] the second
    reading, taken on the retry path.  There the delay and the time of the
    next run are computed before the UPDATE: when either raises, nothing
    is written. *)
Definition mark_job_failed (now : str) (clock : datetime) (job_id : str)
    (result_code : Z) (error : str) (max_retries backoff_base : Z)
    (attempts : N) (stdout stderr : option str) (s : store)
    : result store :=
  let truncated_error := head_or_none 2000 (Some error) in
  let truncated_stdout := head_or_none 10000 stdout in
  let truncated_stderr := head_or_none 10000 stderr in
  if Z.of_N attempts >=? max_retries then
    let '(t, _) :=
      sql_update job_id (λ _, true)
        (dead_set now result_code truncated_error truncated_stdout
           truncated_stderr) (jobs s) in
    Ok (with_jobs t s)
  else
    let delay_seconds := backoff_base ^ Z.of_N attempts in
    delta ← timedelta delay_seconds;
    next_run ← datetime_add clock delta;
    let next_run_at := isoformat next_run in
    let '(t, _) :=
      sql_update job_id (λ _, true)
        (retry_set now result_code truncated_error next_run_at
           truncated_stdout truncated_stderr) (jobs s) in
    Ok (with_jobs t s).

(** The writing methods of the store, with their arguments and the clock
    readings they take. *)
Inductive op : Type :=
  | EnqueueJob (now : str) (jd : job_data)
  | ClaimJob (now : str)
  | MarkJobCompleted (now job_id : str) (code : Z) (out err : option str)
  | MarkJobFailed (now : str) (clock : datetime) (job_id : str) (code : Z)
      (error : str) (retries backoff_base : Z) (tries : N)
      (out err : option str)
  | RetryJob (now job_id : str) (retries : option Z)
  | SetConfig (key value : str).

(** The database after a call: what was committed, or the database as it
    was when the call raised. *)
Definition committed (r : result store) (s : store) : store :=
  match r with
  | Ok s' => s'
  | Raise _ => s
  end.

Definition step (o : op) (s : store) : store :=
  match o with
  | EnqueueJob now jd => committed (enqueue_job now jd s) s
  | ClaimJob now => (claim_job now s).2
  | MarkJobCompleted now job_id code out err =>
      committed (mark_job_completed now job_id code out err s) s
  | MarkJobFailed now clock job_id code error retries backoff_base tries
      out err =>
      committed (mark_job_failed now clock job_id code error retries
                   backoff_base tries out err s) s
  | RetryJob now job_id retries => committed (retry_job now job_id retries s) s
  | SetConfig key value => committed (set_config key value s) s
  end.

Definition run (ops : list op) (s : store) : store :=
  foldl (λ s o, step o s) s ops.

End Clock.

(** [WHERE state = ?] *)
Definition has_state (wanted : str) (r : job) : bool :=
  bool_decide (state_name (state r) = wanted).

(** [ORDER BY created_at DESC]: row [a] may stand before row [b]. *)
Definition newer_first (a b : str * job) : Prop :=
  str_leb (created_at b.2) (created_at a.2).

#[export] Instance newer_first_dec : RelDecision newer_first.
Proof. intros a b. unfold newer_first. apply _. Defined.

(** [LIMIT ? OFFSET ?]: SQLite takes a negative limit as no limit and a
    negative offset as no offset. *)
Definition sql_limit {A : Type} (limit offset : Z) (rows : list A) : list A :=
  let rest := drop (Z.to_nat offset) rows in
  if limit <? 0 then rest else take (Z.to_nat limit) rest.

(** [list_jobs]: the rows as (id, other columns); the filter is applied
    when [state] is given and not empty. *)
Definition list_jobs (state : option str) (limit offset : Z) (s : store)
    : list (str * job) :=
  let rows :=
    match state with
    | Some (c :: name) =>
        filter (λ kr, has_state (c :: name) kr.2) (map_to_list (jobs s))
    | _ => map_to_list (jobs s)
    end in
  sql_limit limit offset (merge_sort newer_first rows).

(** [get_job_counts]: [SELECT state, COUNT( * ) ... GROUP BY state] as a
    dictionary from the state's name to the size of its group. *)
Definition count_row (kr : str * job) (counts : gmap str Z) : gmap str Z :=
  <[state_name (state kr.2) :=
      default 0 (counts !! state_name (state kr.2)) + 1]> counts.

Definition get_job_counts (s : store) : gmap str Z :=
  foldr count_row ∅ (map_to_list (jobs s)).

End Store.

(** ** [queuectl/config.py] *)

Module Config.

Definition DEFAULTS : gmap str str :=
  list_to_map
    [ (lit "max_retries", lit "3");
      (lit "backoff_base", lit "2");
      (lit "worker_poll_interval", lit "1");
      (lit "db_path", lit "./data/queuectl.db") ].

Definition KEY_MAPPING : gmap str str :=
  list_to_map
    [ (lit "max-retries", lit "max_retries");
      (lit "backoff-base", lit "backoff_base");
      (lit "worker-poll-interval", lit "worker_poll_interval");
      (lit "db-path", lit "db_path") ].

Definition normalize_config_key (key : str) : str :=
  match KEY_MAPPING !! key with
  | Some mapped => mapped
  | None => key
  end.

Definition get_config (s : store) (key : str) : option str :=
  let normalized_key := normalize_config_key key in
  match Store.get_config normalized_key s with
  | None => DEFAULTS !! normalized_key
  | Some value => Some value
  end.

Section Int.

(** [int(text)]: the integer, or the [ValueError] it raises. *)
Variable py_int : str → result Z.

(** [int(value) if value else 0] *)
Definition get_config_int (s : store) (key : str) : result Z :=
  match get_config s key with
  | None | Some [] => Ok 0
  | Some value => py_int value
  end.

End Int.

End Config.

(** ** [queuectl/executor.py] *)

Module Executor.

(** The dictionary returned by [execute_job_command]. *)
Record exec_result : Type := mk_exec_result {
  success : bool;
  exit_code : Z;
  output : str;
  error : option str
}.

(** [execute_job_command], from the triple [(exit_code, stdout, stderr)]
    that [CommandExecutor.execute] returned for the command. *)
Definition execute_job_command (ran : Z * str * str) : exec_result :=
  let '(exit_code, stdout, stderr) := ran in
  {| success := (exit_code =? 0);
     exit_code := exit_code;
     output := stdout;
     error := match stderr with [] => None | _ => Some stderr end |}.

End Executor.

(** ** [queuectl/worker.py] *)

Module Worker.

Import Executor.

Section Runtime.

Variable isoformat : datetime → str.
Variable py_int : str → result Z.

(** [get_config_int(store, "backoff_base")], replaced by 2 when it is
    not positive. *)
Definition read_backoff_base (s : store) : result Z :=
  backoff_base ← Config.get_config_int py_int s (lit "backoff_base");
  mret (if backoff_base <=? 0 then 2 else backoff_base).

(** [Worker._execute_job]: [ran] is what the executor produced, [now]
    and [clock] the clock readings of the store call that is made.  A
    second call is made only after the first raised; it is given the same
    readings (read later, they would raise the same error: the delay is
    positive and clocks do not run backwards). *)
Definition _execute_job (now : str) (clock : datetime)
    (ran : Z * str * str) (job : str * job) (s : store) : result store :=
  let job_id := job.1 in
  let attempts := attempts job.2 in
  let max_retries := max_retries job.2 in
  let body : result store :=
    let result := execute_job_command ran in
    if success result then
      let stdout := output result in
      let stderr := error result in
      Store.mark_job_completed now job_id (exit_code result)
        (Some stdout) stderr s
    else
      let stdout := output result in
      let stderr := error result in
      let exit_code := exit_code result in
      let error_msg :=
        match stderr, stdout with
        | Some (c :: e), _ => c :: e
        | _, c :: o => c :: o
        | _, [] => lit "Command failed with exit code " ++ str_of_int exit_code
        end in
      backoff_base ← read_backoff_base s;
      Store.mark_job_failed isoformat now clock job_id exit_code error_msg
        max_retries backoff_base attempts (Some stdout) stderr s in
  match body with
  | Ok s' => Ok s'
  | Raise e =>
      backoff_base ← read_backoff_base s;
      Store.mark_job_failed isoformat now clock job_id 1 (exn_str e)
        max_retries backoff_base attempts None (Some (exn_str e)) s
  end.

(** One turn of the loop of [Worker.run]: claim at [claim_now], then
    handle the claimed job; an exception of the turn is logged. *)
Definition run_once (claim_now now : str) (clock : datetime)
    (ran : Z * str * str) (s : store) : store :=
  match Store.claim_job claim_now s with
  | (None, s') => s'
  | (Some job, s') =>
      Store.committed (_execute_job now clock ran job s') s'
  end.

End Runtime.

End Worker.

(** ** [queuectl/cli.py]

    The commands that write to the store.  What a command prints is left
    out; [typer.Exit(1)] is the outcome [Exit 1], and an exception that the
    command does not catch ends it as [Uncaught]. *)

Module Cli.

Inductive outcome : Type :=
  | Done (s : store)
  | Exit (code : Z)
  | Uncaught (e : exn).

Definition finish (r : result store) : outcome :=
  match r with
  | Ok s => Done s
  | Raise e => Uncaught e
  end.

Definition valid_keys : list str :=
  [ lit "max_retries"; lit "backoff_base"; lit "worker_poll_interval";
    lit "db_path" ].

(** [queuectl config set KEY VALUE] *)
Definition config_set (key value : str) (s : store) : outcome :=
  let normalized_key := Config.normalize_config_key key in
  if bool_decide (normalized_key ∉ valid_keys) then Exit 1
  else finish (Store.set_config normalized_key value s).

(** [queuectl config get KEY]: the value that is printed, [None] when the
    command prints that the key is not set. *)
Definition config_get (key : str) (s : store) : option str :=
  let normalized_key := Config.normalize_config_key key in
  Config.get_config s normalized_key.

(** [queuectl dlq retry JOB_ID [--max-retries N]] *)
Definition dlq_retry (now job_id : str) (max_retries : option Z) (s : store)
    : outcome :=
  match Store.retry_job now job_id max_retries s with
  | Ok s' => Done s'
  | Raise (ValueError _) => Exit 1
  | Raise e => Uncaught e
  end.

Section Int.

Variable py_int : str → result Z.

(** [queuectl enqueue --command ... [--id] [--max-retries] [--run-at]
    [--priority]], the form without a JSON argument.  [fresh] is the
    [str(uuid.uuid4())] that is used when no id is given. *)
Definition enqueue (now fresh : str) (command id : option str)
    (max_retries : option Z) (run_at : option str) (priority : Z) (s : store)
    : outcome :=
  match command with
  | None | Some [] => Exit 1
  | Some command =>
      let chosen_id :=
        match id with
        | Some (c :: given) => c :: given
        | _ => fresh
        end in
      let next_run_at :=
        match run_at with
        | Some (c :: given) => Some (c :: given)
        | _ => None
        end in
      let retries :=
        match max_retries with
        | Some given => Ok given
        | None =>
            match Config.get_config s (lit "max_retries") with
            | Some (c :: config_max_retries) => py_int (c :: config_max_retries)
            | _ => Ok 3
            end
        end in
      match retries with
      | Raise e => Uncaught e
      | Ok retries =>
          finish (Store.enqueue_job now
                    {| jd_id := chosen_id;
                       jd_command := command;
                       jd_max_retries := Some retries;
                       jd_next_run_at := next_run_at;
                       jd_priority := Some priority |} s)
      end
  end.

End Int.

End Cli.

(** ** [queuectl/worker_manager.py]

    The liveness test of the manager.  The two marker files and the process
    table are the state; a file that is removed is gone. *)

Module WorkerManager.

(** The contents of [PID_FILE] and of [SHUTDOWN_FILE], [None] for a file
    that does not exist. *)
Record files : Type := mk_files {
  pid_file : option str;
  shutdown_file : option str
}.

(** What [psutil.Process(pid)] gives: the exception [NoSuchProcess], a
    [ValueError] for a pid it does not accept, or a process together with
    the answer of its [is_running()]. *)
Inductive process_lookup : Type :=
  | NoSuchProcess
  | BadPid
  | Process (is_running : bool).

Definition remove_pid_file (fs : files) : files :=
  {| pid_file := None; shutdown_file := shutdown_file fs |}.

Section System.

(** [int(text.strip())] *)
Variable int_of_stripped : str → result Z.
Variable psutil_Process : Z → process_lookup.

Definition is_manager_running (fs : files) : bool * files :=
  match pid_file fs with
  | None => (false, fs)
  | Some text =>
      match int_of_stripped text with
      | Raise _ => (false, remove_pid_file fs)
      | Ok pid =>
          match psutil_Process pid with
          | Process running => (running, fs)
          | NoSuchProcess => (false, remove_pid_file fs)
          | BadPid => (false, remove_pid_file fs)
          end
      end
  end.

End System.

End WorkerManager.

(** ** Sample data

    Concrete rows, stores and stand-ins for the two library functions, used
    where a property is evaluated on an input. *)

Definition t0 : str := lit "2025-01-01T00:00:00+00:00".
Definition t1 : str := lit "2025-01-01T00:00:05+00:00".
Definition t2 : str := lit "2025-01-01T00:00:09+00:00".

Definition sample_job (st : job_state) (tries : N) (retries : Z)
    (started finished next_run : option str) : job :=
  {| command := lit "exit 1";
     state := st;
     attempts := tries;
     max_retries := retries;
     created_at := t0;
     updated_at := t0;
     started_at := started;
     finished_at := finished;
     result_code := None;
     last_error := None;
     next_run_at := next_run;
     stdout := None;
     stderr := None;
     priority := 0 |}.

Definition one_job (job_id : str) (r : job) : store :=
  {| jobs := {[ job_id := r ]}; config := ∅ |}.

Definition empty_store : store := {| jobs := ∅; config := ∅ |}.

(** A rendering of a clock reading: its count of microseconds. *)
Definition decimal_stamp (t : datetime) : str := str_of_int t.

(** A parser of unsigned decimal numerals. *)
Definition digits_int (text : str) : result Z :=
  if forallb (λ c, (48 <=? c)%N && (c <=? 57)%N) text && negb (bool_decide (text = []))
  then Ok (foldl (λ acc c, 10 * acc + (Z.of_N c - 48)) 0 text)
  else Raise (ValueError (lit "invalid literal for int() with base 10")).

(** ** Histories of the store and of the whole system *)

Section Histories.

Variable isoformat : datetime → str.
Variable py_int : str → result Z.


Definition replays (o : Store.op) (job_id : str) : Prop :=
  match o with
  | Store.RetryJob _ j _ => j = job_id
  | _ => False
  end.

Definition is_ok {A : Type} (r : result A) : bool :=
  match r with
  | Ok _ => true
  | Raise _ => false
  end.

(** The call inserts [job_id], or replays it from the DLQ, with success. *)
Definition resets (o : Store.op) (job_id : str) (s : store) : bool :=
  match o with
  | Store.EnqueueJob now jd =>
      bool_decide (jd_id jd = job_id) && is_ok (Store.enqueue_job now jd s)
  | Store.RetryJob now j retries =>
      bool_decide (j = job_id) && is_ok (Store.retry_job now j retries s)
  | _ => false
  end.

(** The call is a [claim_job] that returns [job_id]. *)
Definition claims (o : Store.op) (job_id : str) (s : store) : bool :=
  match o with
  | Store.ClaimJob now =>
      match (Store.claim_job now s).1 with
      | Some (j, _) => bool_decide (j = job_id)
      | None => false
      end
  | _ => false
  end.

(** The number of successful claims of [job_id] since its insert or its
    last replay, along the calls [ops] made from [s]; [count] is the number
    so far. *)
Fixpoint claims_since_reset (job_id : str) (ops : list Store.op) (s : store)
    (count : N) : N :=
  match ops with
  | [] => count
  | o :: rest =>
      claims_since_reset job_id rest (Store.step isoformat o s)
        (if resets o job_id s then 0
         else if claims o job_id s then count + 1
         else count)%N
  end.

(** What happens to the store in normal operation: a producer enqueues, a
    worker makes one turn of its loop, an operator replays a dead job or
    sets a configuration value. *)
Inductive event : Type :=
  | Submit (now : str) (jd : job_data)
  | Poll (claim_now now : str) (clock : datetime) (ran : Z * str * str)
  | Replay (now job_id : str) (retries : option Z)
  | Configure (key value : str).

Definition natural_step (e : event) (s : store) : store :=
  match e with
  | Submit now jd => Store.committed (Store.enqueue_job now jd s) s
  | Poll claim_now now clock ran =>
      Worker.run_once isoformat py_int claim_now now clock ran s
  | Replay now job_id retries =>
      Store.committed (Store.retry_job now job_id retries s) s
  | Configure key value => Store.committed (Store.set_config key value s) s
  end.

Definition natural_run (events : list event) (s : store) : store :=
  foldl (λ s e, natural_step e s) s events.

End Histories.

(** Every [dead] job has used up its retry budget. *)
Definition budget_respected (s : store) : Prop :=
  ∀ job_id r, jobs s !! job_id = Some r → state r = dead →
              max_retries r ≤ Z.of_N (attempts r).

(** A history of one job: enqueued, claimed, failed with a retry, claimed
    again. *)
Definition sample_history : list Store.op :=
  [ Store.EnqueueJob t0
      {| jd_id := lit "j1"; jd_command := lit "exit 1";
         jd_max_retries := None; jd_next_run_at := None;
         jd_priority := None |};
    Store.ClaimJob t0;
    Store.MarkJobFailed t1 0 (lit "j1") 1 (lit "boom") 3 2 1 None
      (Some (lit "boom"));
    Store.ClaimJob t2 ].

(** ** Vocabulary of the specification *)

(** The time of the next run, [delay_seconds] after the reading [clock]:
    what the retry path of [mark_job_failed] computes before its UPDATE. *)
Definition next_run (clock : datetime) (delay_seconds : Z) : result datetime :=
  delta ← timedelta delay_seconds;
  datetime_add clock delta.

(** The delay is one that a [timedelta] can hold and the time of the next
    run is one that a [datetime] can hold. *)
Definition in_range (clock : datetime) (delay_seconds : Z) : Prop :=
  Z.abs (delay_seconds / 86400) ≤ 999999999 ∧
  datetime_min ≤ clock + timedelta_seconds delay_seconds ≤ datetime_max.

(** *** Times as the specification reads them

    The specification speaks of a [next_run_at] that is at most [now] or
    lies in the future, that is of the instants the two texts name.  An
    ISO 8601 text [YYYY-MM-DD], [T] or a space, [HH:MM:SS], an optional
    fraction of six digits, and [Z] or an offset [+HH:MM] or [-HH:MM]
    names an instant, counted here in microseconds since
    1970-01-01T00:00:00 UTC. *)

Definition digit (c : N) : option Z :=
  if (48 <=? c)%N && (c <=? 57)%N then Some (Z.of_N c - 48) else None.

Fixpoint number (acc : Z) (text : str) : option Z :=
  match text with
  | [] => Some acc
  | c :: rest => d ← digit c; number (10 * acc + d) rest
  end.

(** A field of [width] digits at the head of [text], and what follows. *)
Definition field (width : nat) (text : str) : option (Z * str) :=
  if bool_decide (length (take width text) = width) then
    v ← number 0 (take width text); Some (v, drop width text)
  else None.

Definition expect (c : N) (text : str) : option str :=
  match text with
  | c' :: rest => if (c' =? c)%N then Some rest else None
  | [] => None
  end.

(** Days from 1970-01-01 to the day [y]-[m]-[d] of the Gregorian
    calendar. *)
Definition days_from_civil (y m d : Z) : Z :=
  let y := if m <=? 2 then y - 1 else y in
  let era := y / 400 in
  let yoe := y - era * 400 in
  let doy := (153 * ((m + 9) mod 12) + 2) / 5 + d - 1 in
  let doe := yoe * 365 + yoe / 4 - yoe / 100 + doy in
  era * 146097 + doe - 719468.

Definition fraction (text : str) : option (Z * str) :=
  match text with
  | 46%N :: rest => field 6 rest
  | _ => Some (0, text)
  end.

(** The offset from UTC in seconds: [Z], [+HH:MM] or [-HH:MM]. *)
Definition utc_offset (text : str) : option Z :=
  match text with
  | [90%N] => Some 0
  | sign :: rest =>
      direction ← (if (sign =? 43)%N then Some 1
                   else if (sign =? 45)%N then Some (-1) else None);
      '(hours, rest) ← field 2 rest;
      rest ← expect 58 rest;
      '(minutes, rest) ← field 2 rest;
      if bool_decide (rest = []) then
        Some (direction * (hours * 3600 + minutes * 60))
      else None
  | [] => None
  end.

Definition instant_of (text : str) : option Z :=
  '(year, rest) ← field 4 text;
  rest ← expect 45 rest;
  '(month, rest) ← field 2 rest;
  rest ← expect 45 rest;
  '(day, rest) ← field 2 rest;
  rest ← (match expect 84 rest with
          | Some rest => Some rest
          | None => expect 32 rest
          end);
  '(hour, rest) ← field 2 rest;
  rest ← expect 58 rest;
  '(minute, rest) ← field 2 rest;
  rest ← expect 58 rest;
  '(second, rest) ← field 2 rest;
  '(micro, rest) ← fraction rest;
  offset ← utc_offset rest;
  Some ((days_from_civil year month day * 86400 + hour * 3600 + minute * 60
         + second - offset) * 1000000 + micro).

(** The time [t] lies in the future at [now]: the instant it names is
    after the one [now] names. *)
Definition lies_in_future (now t : str) : Prop :=
  ∃ a b, instant_of t = Some a ∧ instant_of now = Some b ∧ b < a.

(** The time [t] is at most [now]. *)
Definition due_by_time (now t : str) : Prop :=
  ∃ a b, instant_of t = Some a ∧ instant_of now = Some b ∧ a ≤ b.

(** A job that is eligible at [now] as the specification has it: it is
    [pending] and its [next_run_at] is absent or a time that is at most
    [now]. *)
Definition eligible_by_time (now : str) (r : job) : Prop :=
  state r = pending ∧ ∀ t, next_run_at r = Some t → due_by_time now t.

(** A job that [claim_job] takes for eligible at [now]: it is [pending] and
    its [next_run_at] is absent or a text that is not after the text [now]
    in the order of texts (code point by code point; the comparison of
    SQLite on a TEXT column).  This is not the order of the instants the
    texts name. *)
Definition eligible_by_text (now : str) (r : job) : Prop :=
  state r = pending ∧ ∀ t, next_run_at r = Some t → str_compare t now ≠ Gt.

(** A job scheduled for 07:00 in a zone five hours behind UTC, and one
    scheduled for 09:00 in a zone five hours ahead; a claim at 08:00 UTC. *)
Definition due_at_noon : str := lit "2025-01-01T07:00:00-05:00".
Definition due_at_four : str := lit "2025-01-01T09:00:00+05:00".
Definition at_eight : str := lit "2025-01-01T08:00:00+00:00".

(** Row [a] is dispatched no later than row [b]: it has the higher
    priority, or the same priority and a [created_at] that is not later. *)
Definition dispatched_no_later (a b : job) : Prop :=
  priority b < priority a ∨
  (priority a = priority b ∧ str_compare (created_at a) (created_at b) ≠ Gt).

(** What is stored of a captured text under a limit of [limit] characters:
    nothing for an absent or empty text, otherwise its head, whole when the
    text has at most [limit] characters and of exactly [limit] characters
    when it is longer. *)
Definition head_kept (limit : Z) (given stored : option str) : Prop :=
  match given with
  | None | Some [] => stored = None
  | Some text =>
      ∃ kept rest,
        stored = Some kept ∧ text = kept ++ rest ∧
        Z.of_nat (length kept) = Z.min limit (Z.of_nat (length text)) ∧
        (utf8_length kept ≤ 4 * length kept)%nat
  end.

(** The store of scenario S6: [low] enqueued before [high]. *)
Definition low_job : job :=
  {| command := lit "echo low"; state := pending; attempts := 0;
     max_retries := 3; created_at := t0; updated_at := t0;
     started_at := None; finished_at := None; result_code := None;
     last_error := None; next_run_at := None; stdout := None;
     stderr := None; priority := 0 |}.

Definition high_job : job :=
  {| command := lit "echo high"; state := pending; attempts := 0;
     max_retries := 3; created_at := t1; updated_at := t1;
     started_at := None; finished_at := None; result_code := None;
     last_error := None; next_run_at := None; stdout := None;
     stderr := None; priority := 5 |}.

Definition two_priorities : store :=
  {| jobs := <[lit "high" := high_job]> {[ lit "low" := low_job ]};
     config := ∅ |}.

(** ** Vocabulary of the further properties *)

(** The row that [enqueue_job] inserts. *)
Definition enqueued_row (now : str) (jd : job_data) : job :=
  {| command := jd_command jd;
     state := pending;
     attempts := 0;
     max_retries := default 3 (jd_max_retries jd);
     created_at := now;
     updated_at := now;
     started_at := None;
     finished_at := None;
     result_code := None;
     last_error := None;
     next_run_at := jd_next_run_at jd;
     stdout := None;
     stderr := None;
     priority := default 0 (jd_priority jd) |}.

(** The first clock reading of a call, which it writes to [updated_at]. *)
Definition op_now (o : Store.op) : option str :=
  match o with
  | Store.EnqueueJob now _ => Some now
  | Store.ClaimJob now => Some now
  | Store.MarkJobCompleted now _ _ _ _ => Some now
  | Store.MarkJobFailed now _ _ _ _ _ _ _ _ _ => Some now
  | Store.RetryJob now _ _ => Some now
  | Store.SetConfig _ _ => None
  end.

(** The call is a [mark_job_failed] for [job_id]. *)
Definition fails (o : Store.op) (job_id : str) : Prop :=
  match o with
  | Store.MarkJobFailed _ _ j _ _ _ _ _ _ _ => j = job_id
  | _ => False
  end.

(** What the store keeps true of every row. *)
Definition row_consistent (r : job) : Prop :=
  state r ≠ failed ∧
  (state r = completed ∨ state r = dead →
   is_Some (finished_at r) ∧ is_Some (result_code r)) ∧
  (state r = processing → is_Some (started_at r) ∧ (0 < attempts r)%N).

Definition store_consistent (s : store) : Prop :=
  ∀ job_id r, jobs s !! job_id = Some r → row_consistent r.

(** The number of rows in a state, and the count a reader of
    [get_job_counts] gets with [counts.get(name, 0)]. *)
Definition jobs_in_state (st : job_state) (s : store) : Z :=
  Z.of_nat (length (filter (λ kr : str * job, state kr.2 = st)
                      (map_to_list (jobs s)))).

Definition count_of (st : job_state) (counts : gmap str Z) : Z :=
  default 0 (counts !! state_name st).

(** The message that the worker records for a failed run. *)
Definition failure_message (exit_code : Z) (stdout stderr : str) : str :=
  match stderr, stdout with
  | c :: e, _ => c :: e
  | [], c :: o => c :: o
  | [], [] => lit "Command failed with exit code " ++ str_of_int exit_code
  end.

(** How one call of the store can change the row of [job_id]: the row
    before the call ([None] when there is none) and the row after it. *)
Inductive row_change (isoformat : datetime → str) (job_id : str)
    : Store.op → option job → job → Prop :=
  | change_none o r :
      row_change isoformat job_id o (Some r) r
  | change_enqueue now jd :
      jd_id jd = job_id →
      row_change isoformat job_id (Store.EnqueueJob now jd) None
        (enqueued_row now jd)
  | change_claim now r :
      state r = pending →
      row_change isoformat job_id (Store.ClaimJob now) (Some r)
        (Store.claim_set now r)
  | change_completed now code out err r :
      row_change isoformat job_id
        (Store.MarkJobCompleted now job_id code out err) (Some r)
        (Store.completed_set now code (head_or_none 10000 out)
           (head_or_none 10000 err) r)
  | change_dead now clock code error retries base (tries : N) out err r :
      retries ≤ Z.of_N tries →
      row_change isoformat job_id
        (Store.MarkJobFailed now clock job_id code error retries base tries
           out err) (Some r)
        (Store.dead_set now code (head_or_none 2000 (Some error))
           (head_or_none 10000 out) (head_or_none 10000 err) r)
  | change_retry now clock code error retries base (tries : N) out err r :
      Z.of_N tries < retries →
      row_change isoformat job_id
        (Store.MarkJobFailed now clock job_id code error retries base tries
           out err) (Some r)
        (Store.retry_set now code (head_or_none 2000 (Some error))
           (isoformat (clock + timedelta_seconds (base ^ Z.of_N tries)))
           (head_or_none 10000 out) (head_or_none 10000 err) r)
  | change_replay now retries r :
      state r = dead →
      row_change isoformat job_id (Store.RetryJob now job_id retries) (Some r)
        (Store.replay_set now retries r).

(** A row has not been run more often than its budget allows: waiting, it
    is new or has tries left; claimed or finished, it has been run at
    least once and, beyond the first run, within [max_retries]. *)
Definition run_bounded (r : job) : Prop :=
  (state r = pending →
   attempts r = 0%N ∨ Z.of_N (attempts r) < max_retries r) ∧
  (state r ≠ pending →
   (1 ≤ attempts r)%N ∧
   (attempts r = 1%N ∨ Z.of_N (attempts r) ≤ max_retries r)).

Definition runs_bounded (s : store) : Prop :=
  ∀ job_id r, jobs s !! job_id = Some r → run_bounded r.

(** A store with one waiting job and a [backoff_base] that is no number. *)
Definition bad_backoff_store : store :=
  {| jobs := {[ lit "j1" := sample_job pending 0 3 None None None ]};
     config := {[ lit "backoff_base" := lit "fast" ]} |}.

(** A store with one waiting job and a [backoff_base] of 10^12 seconds,
    more than 30,000 years. *)
Definition huge_backoff_store : store :=
  {| jobs := {[ lit "j1" := sample_job pending 0 3 None None None ]};
     config := {[ lit "backoff_base" := lit "1000000000000" ]} |}.

(** A job with a budget of one that is enqueued, run and fails. *)
Definition sample_events : list event :=
  [ Submit t0 {| jd_id := lit "j1"; jd_command := lit "exit 1";
                 jd_max_retries := Some 1; jd_next_run_at := None;
                 jd_priority := None |};
    Poll t1 t2 0 (1, [], lit "no") ].

(** A row passes the filter of [list_jobs]: every row when no state, or
    the empty text, is given. *)
Definition listed (wanted : option str) (r : job) : Prop :=
  match wanted with
  | Some (c :: name) => state_name (state r) = c :: name
  | _ => True
  end.

(** * Properties *)

(** ** The order of TEXT values *)

Lemma str_compare_refl (a : str) : str_compare a a = Eq.
Proof.
  induction a as [|x a IH]; simpl; [done|].
  by rewrite N.compare_refl.
Qed.

Lemma str_compare_eq (a b : str) : str_compare a b = Eq → a = b.
Proof.
  revert b; induction a as [|x a IH]; intros [|y b]; simpl; try done.
  destruct (N.compare_spec x y) as [->|Hlt|Hgt]; try done.
  intros Hab. by rewrite (IH b Hab).
Qed.

Lemma str_compare_flip (a b : str) :
  str_compare b a = CompOpp (str_compare a b).
Proof.
  revert b; induction a as [|x a IH]; intros [|y b]; simpl; try done.
  rewrite (N.compare_antisym x y).
  destruct (N.compare x y); simpl; auto.
Qed.

Lemma str_compare_lt_trans (a b c : str) :
  str_compare a b = Lt → str_compare b c = Lt → str_compare a c = Lt.
Proof.
  revert b c; induction a as [|x a IH]; intros [|y b] [|z c]; simpl; try done.
  destruct (N.compare_spec x y) as [->|Hxy|Hxy]; try done.
  - destruct (N.compare_spec y z) as [->|Hyz|Hyz]; try done.
    apply IH.
  - intros _.
    destruct (N.compare_spec y z) as [->|Hyz|Hyz]; try done; intros _.
    + by rewrite (proj2 (N.compare_lt_iff x z) Hxy).
    + by rewrite (proj2 (N.compare_lt_iff x z) (N.lt_trans _ _ _ Hxy Hyz)).
Qed.

Lemma str_ltb_irrefl (a : str) : str_ltb a a = false.
Proof. unfold str_ltb. by rewrite str_compare_refl. Qed.

Lemma str_ltb_asym (a b : str) : str_ltb a b = true → str_ltb b a = false.
Proof.
  unfold str_ltb. rewrite (str_compare_flip a b).
  by destruct (str_compare a b).
Qed.

(** A text below [c] is below any [b], or [b] is below [c]. *)
Lemma str_ltb_cotrans (a b c : str) :
  str_ltb a c = true → str_ltb a b = true ∨ str_ltb b c = true.
Proof.
  unfold str_ltb. intros Hac.
  destruct (str_compare a b) eqn:Hab; [| by left |].
  - apply str_compare_eq in Hab as ->. by right.
  - right.
    assert (Hba : str_compare b a = Lt)
      by (rewrite (str_compare_flip a b), Hab; done).
    destruct (str_compare a c) eqn:Hac'; try done.
    by rewrite (str_compare_lt_trans b a c Hba Hac').
Qed.

Lemma str_leb_ltb (a b : str) : str_leb a b = negb (str_ltb b a).
Proof.
  unfold str_leb, str_ltb. rewrite (str_compare_flip a b).
  by destruct (str_compare a b).
Qed.

(** ** The rows an UPDATE touches *)

Lemma with_jobs_same (s : store) : with_jobs (jobs s) s = s.
Proof. by destruct s. Qed.

Lemma sql_update_absent (job_id : str) (guard : job → bool) (assign : job → job) (t : gmap str job) :
  t !! job_id = None → Store.sql_update job_id guard assign t = (t, 0).
Proof. intros H. unfold Store.sql_update. by rewrite H. Qed.

Lemma sql_update_hit (job_id : str) (guard : job → bool) (assign : job → job) (t : gmap str job) r :
  t !! job_id = Some r → guard r = true →
  Store.sql_update job_id guard assign t = (<[job_id := assign r]> t, 1).
Proof. intros H Hg. unfold Store.sql_update. by rewrite H, Hg. Qed.

Lemma sql_update_miss (job_id : str) (guard : job → bool) (assign : job → job) (t : gmap str job) r :
  t !! job_id = Some r → guard r = false →
  Store.sql_update job_id guard assign t = (t, 0).
Proof. intros H Hg. unfold Store.sql_update. by rewrite H, Hg. Qed.

Lemma sql_update_other (job_id : str) (guard : job → bool) (assign : job → job) (t : gmap str job) other :
  other ≠ job_id →
  (Store.sql_update job_id guard assign t).1 !! other = t !! other.
Proof.
  intros Hne. unfold Store.sql_update.
  destruct (t !! job_id) as [r|]; [|done].
  destruct (guard r); simpl; [|done].
  by rewrite lookup_insert_ne.
Qed.


(** ** What each terminal transition writes *)

Lemma mark_job_completed_row now job_id code out err (s : store) r :
  jobs s !! job_id = Some r →
  Store.mark_job_completed now job_id code out err s =
  Ok (with_jobs
        (<[job_id := Store.completed_set now code (head_or_none 10000 out)
                       (head_or_none 10000 err) r]> (jobs s)) s).
Proof.
  intros Hr. unfold Store.mark_job_completed.
  by rewrite (sql_update_hit _ _ _ _ r Hr).
Qed.


Lemma mark_job_completed_absent now job_id code out err (s : store) :
  jobs s !! job_id = None →
  Store.mark_job_completed now job_id code out err s = Ok s.
Proof.
  intros Hr. unfold Store.mark_job_completed.
  rewrite (sql_update_absent _ _ _ _ Hr). by rewrite with_jobs_same.
Qed.

Lemma mark_job_failed_dead_row isoformat now clock job_id code error
    retries base (tries : N) out err (s : store) r :
  jobs s !! job_id = Some r →
  retries ≤ Z.of_N tries →
  Store.mark_job_failed isoformat now clock job_id code error retries base
    tries out err s =
  Ok (with_jobs
        (<[job_id := Store.dead_set now code (head_or_none 2000 (Some error))
                       (head_or_none 10000 out) (head_or_none 10000 err) r]>
           (jobs s)) s).
Proof.
  intros Hr Hge. unfold Store.mark_job_failed.
  rewrite (proj2 (Z.geb_le _ _) Hge).
  by rewrite (sql_update_hit _ _ _ _ r Hr).
Qed.

#[export] Instance in_range_dec clock delay : Decision (in_range clock delay).
Proof. unfold in_range. apply _. Defined.

Lemma next_run_in_range (clock : datetime) (delay : Z) :
  in_range clock delay →
  next_run clock delay = Ok (clock + timedelta_seconds delay).
Proof.
  intros [Hdays [Hmin Hmax]]. unfold next_run, timedelta.
  rewrite (proj2 (orb_false_iff _ _)) by (split; apply Z.ltb_ge; lia).
  rewrite (proj2 (Z.ltb_ge _ _)) by lia. simpl.
  unfold datetime_add.
  by rewrite (proj2 (andb_true_iff _ _)) by (split; apply Z.leb_le; lia).
Qed.

Lemma next_run_out_of_range (clock : datetime) (delay : Z) :
  ¬ in_range clock delay →
  ∃ msg, next_run clock delay = Raise (OverflowError msg).
Proof.
  intros Hout. unfold next_run, timedelta.
  destruct ((delay / 86400 <? -2147483648) || (2147483647 <? delay / 86400))
    eqn:Hint; [by eexists|].
  apply orb_false_iff in Hint as [Hlow Hhigh].
  destruct (Z.ltb_spec 999999999 (Z.abs (delay / 86400))) as [Hbig|Hdays];
    [by eexists|].
  simpl. unfold datetime_add.
  destruct ((datetime_min <=? clock + timedelta_seconds delay) &&
            (clock + timedelta_seconds delay <=? datetime_max)) eqn:Hfit;
    [|by eexists].
  apply andb_true_iff in Hfit as [Hmin Hmax].
  apply Z.leb_le in Hmin, Hmax. by destruct Hout.
Qed.

Lemma next_run_ok (clock : datetime) (delay : Z) (t : datetime) :
  next_run clock delay = Ok t →
  in_range clock delay ∧ t = clock + timedelta_seconds delay.
Proof.
  intros Hok. destruct (decide (in_range clock delay)) as [Hin|Hout].
  - rewrite (next_run_in_range _ _ Hin) in Hok. by injection Hok as <-.
  - destruct (next_run_out_of_range _ _ Hout) as [msg Hmsg]. congruence.
Qed.

(** The retry path of [mark_job_failed], by the time of the next run. *)
Lemma mark_job_failed_retry_path isoformat now clock job_id code error
    retries base (tries : N) out err (s : store) :
  Z.of_N tries < retries →
  Store.mark_job_failed isoformat now clock job_id code error retries base
    tries out err s =
  match next_run clock (base ^ Z.of_N tries) with
  | Ok t =>
      Ok (with_jobs
            (Store.sql_update job_id (λ _, true)
               (Store.retry_set now code (head_or_none 2000 (Some error))
                  (isoformat t) (head_or_none 10000 out)
                  (head_or_none 10000 err)) (jobs s)).1 s)
  | Raise e => Raise e
  end.
Proof.
  intros Hlt. unfold Store.mark_job_failed, next_run.
  destruct (Z.geb_spec (Z.of_N tries) retries) as [Hge|_]; [lia|].
  destruct (timedelta (base ^ Z.of_N tries)) as [delta|e]; simpl; [|done].
  destruct (datetime_add clock delta) as [t|e]; simpl; [|done].
  by destruct (Store.sql_update _ _ _ _).
Qed.

Lemma mark_job_failed_overflow isoformat now clock job_id code error
    retries base (tries : N) out err (s : store) :
  Z.of_N tries < retries →
  ¬ in_range clock (base ^ Z.of_N tries) →
  ∃ msg, next_run clock (base ^ Z.of_N tries) = Raise (OverflowError msg) ∧
         Store.mark_job_failed isoformat now clock job_id code error retries
           base tries out err s = Raise (OverflowError msg).
Proof.
  intros Hlt Hout.
  destruct (next_run_out_of_range _ _ Hout) as [msg Hmsg].
  exists msg. split; [done|].
  by rewrite mark_job_failed_retry_path, Hmsg.
Qed.

(** A fourth failure with a base of 1000 on 2025-01-01: the delay of 10^12
    seconds is a [timedelta], the time of the next run is past the year
    9999. *)
Lemma mark_job_failed_overflow_example :
  timedelta (1000 ^ 4) = Ok (timedelta_seconds (1000 ^ 4)) ∧
  Store.mark_job_failed decimal_stamp t1 1735689600000000 (lit "j1") 1
    (lit "boom") 5 1000 4 None None
    (one_job (lit "j1") (sample_job processing 4 5 (Some t0) None None))
  = Raise (OverflowError (lit "date value out of range")).
Proof. split; vm_compute; reflexivity. Qed.

(** What [mark_job_failed] does in every case: it raises and writes nothing,
    or it is one UPDATE by id that leaves [attempts] alone and sets a state
    other than [processing]. *)
Lemma mark_job_failed_effect isoformat now clock job_id code error
    retries base (tries : N) out err (s : store) :
  (∃ e, Store.mark_job_failed isoformat now clock job_id code error retries
          base tries out err s = Raise e) ∨
  ∃ assign : job → job,
    Store.mark_job_failed isoformat now clock job_id code error retries base
      tries out err s =
    Ok (with_jobs (Store.sql_update job_id (λ _, true) assign (jobs s)).1 s) ∧
    ∀ r, state (assign r) ≠ processing ∧
         (state (assign r) = dead → retries ≤ Z.of_N tries) ∧
         attempts (assign r) = attempts r ∧
         max_retries (assign r) = max_retries r.
Proof.
  destruct (Z_le_gt_dec retries (Z.of_N tries)) as [Hge|Hlt].
  - right.
    exists (Store.dead_set now code (head_or_none 2000 (Some error))
              (head_or_none 10000 out) (head_or_none 10000 err)).
    split; [|by intros r].
    unfold Store.mark_job_failed. rewrite (proj2 (Z.geb_le _ _) Hge).
    by destruct (Store.sql_update _ _ _ _).
  - rewrite mark_job_failed_retry_path by lia.
    destruct (next_run clock (base ^ Z.of_N tries)) as [t|e];
      [|left; by exists e].
    right.
    exists (Store.retry_set now code (head_or_none 2000 (Some error))
              (isoformat t) (head_or_none 10000 out) (head_or_none 10000 err)).
    split; [done|]. by intros r.
Qed.

Lemma mark_job_failed_retry_row isoformat now clock job_id code error
    retries base (tries : N) out err (s : store) r :
  jobs s !! job_id = Some r →
  Z.of_N tries < retries →
  in_range clock (base ^ Z.of_N tries) →
  Store.mark_job_failed isoformat now clock job_id code error retries base
    tries out err s =
  Ok (with_jobs
        (<[job_id := Store.retry_set now code (head_or_none 2000 (Some error))
                       (isoformat
                          (clock + timedelta_seconds (base ^ Z.of_N tries)))
                       (head_or_none 10000 out) (head_or_none 10000 err) r]>
           (jobs s)) s).
Proof.
  intros Hr Hlt Hin.
  rewrite mark_job_failed_retry_path, (next_run_in_range _ _ Hin) by done.
  by rewrite (sql_update_hit _ _ _ _ r Hr).
Qed.

Lemma mark_job_failed_absent isoformat now clock job_id code error
    retries base (tries : N) out err (s : store) :
  jobs s !! job_id = None →
  retries ≤ Z.of_N tries ∨ in_range clock (base ^ Z.of_N tries) →
  Store.mark_job_failed isoformat now clock job_id code error retries base
    tries out err s = Ok s.
Proof.
  intros Hr Hfit.
  destruct (Z_le_gt_dec retries (Z.of_N tries)) as [Hge|Hlt].
  - unfold Store.mark_job_failed. rewrite (proj2 (Z.geb_le _ _) Hge).
    rewrite (sql_update_absent _ _ _ _ Hr). by rewrite with_jobs_same.
  - destruct Hfit as [Hge|Hin]; [lia|].
    rewrite mark_job_failed_retry_path, (next_run_in_range _ _ Hin) by lia.
    rewrite (sql_update_absent _ _ _ _ Hr). simpl. by rewrite with_jobs_same.
Qed.

Lemma retry_job_row now job_id retries (s : store) r :
  jobs s !! job_id = Some r → state r = dead →
  Store.retry_job now job_id retries s =
  Ok (with_jobs (<[job_id := Store.replay_set now retries r]> (jobs s)) s).
Proof.
  intros Hr Hdead. unfold Store.retry_job. rewrite Hr.
  rewrite bool_decide_eq_false_2 by (intros Hne; by apply Hne).
  by rewrite (sql_update_hit _ _ _ _ r Hr).
Qed.

(** ** Unknown job ids *)



(** ** DLQ replay *)

(** C4. [retry_job] raises the "not found" error when no row has the id and
    the "not in DLQ" error when the row is not [dead], and the database
    stays as it was in both cases.  On a [dead] row it succeeds: the row
    becomes [pending] with [attempts = 0], [next_run_at] null and
    [updated_at = now]; [max_retries] is the argument when one is given and
    keeps its value otherwise.  The other columns, the other rows and the
    configuration are untouched. *)
Theorem retry_job_cases (now job_id : str) (retries : option Z) (s : store) :
  (jobs s !! job_id = None →
     Store.retry_job now job_id retries s =
       Raise (ValueError (lit "Job " ++ job_id ++ lit " not found")) ∧
     Store.committed (Store.retry_job now job_id retries s) s = s) ∧
  (∀ r, jobs s !! job_id = Some r → state r ≠ dead →
     Store.retry_job now job_id retries s =
       Raise (ValueError (lit "Job " ++ job_id ++
                          lit " is not in DLQ (current state: " ++
                          state_name (state r) ++ lit ")")) ∧
     Store.committed (Store.retry_job now job_id retries s) s = s) ∧
  (∀ r, jobs s !! job_id = Some r → state r = dead →
     ∃ s' r',
       Store.retry_job now job_id retries s = Ok s' ∧
       jobs s' !! job_id = Some r' ∧
       state r' = pending ∧ attempts r' = 0%N ∧ next_run_at r' = None ∧
       updated_at r' = now ∧
       (∀ m, retries = Some m → max_retries r' = m) ∧
       (retries = None → max_retries r' = max_retries r) ∧
       command r' = command r ∧ created_at r' = created_at r ∧
       started_at r' = started_at r ∧ finished_at r' = finished_at r ∧
       result_code r' = result_code r ∧ last_error r' = last_error r ∧
       stdout r' = stdout r ∧ stderr r' = stderr r ∧
       priority r' = priority r ∧
       (∀ other, other ≠ job_id → jobs s' !! other = jobs s !! other) ∧
       config s' = config s).
Proof.
  split; [|split].
  - intros Hnone. unfold Store.retry_job. by rewrite Hnone.
  - intros r Hr Hst. unfold Store.retry_job. rewrite Hr.
    by rewrite bool_decide_eq_true_2.
  - intros r Hr Hdead.
    eexists _, _. split; [by apply retry_job_row|].
    split; [apply lookup_insert_eq|].
    simpl. repeat split; try done.
    + by intros m ->.
    + by intros ->.
    + intros other Hne. by rewrite lookup_insert_ne.
Qed.

Lemma retry_job_cases_witness :
  ∃ s' r',
    Store.retry_job t2 (lit "j2") (Some 5)
      (one_job (lit "j2") (sample_job dead 3 3 (Some t0) (Some t1) (Some t1)))
    = Ok s' ∧
    jobs s' !! lit "j2" = Some r' ∧
    state r' = pending ∧ attempts r' = 0%N ∧ next_run_at r' = None ∧
    max_retries r' = 5.
Proof.
  destruct (proj2 (proj2 (retry_job_cases t2 (lit "j2") (Some 5)
      (one_job (lit "j2") (sample_job dead 3 3 (Some t0) (Some t1) (Some t1)))))
      (sample_job dead 3 3 (Some t0) (Some t1) (Some t1)))
    as (s' & r' & Hok & Hrow & Hst & Hatt & Hnext & _ & Hmax & _).
  - vm_compute. reflexivity.
  - reflexivity.
  - exists s', r'. repeat split; try assumption. by apply Hmax.
Defined.

(** ** [next_run_at] at replay and at completion *)

(** C6, as stated, fails for [mark_job_completed]: a job that was retried
    (so [next_run_at] is set), claimed again and then completed keeps its
    [next_run_at]. *)
Lemma completed_job_keeps_next_run_at :
  let retried := sample_job processing 2 3 (Some t1) None (Some t1) in
  ¬ (∀ s' r',
       Store.mark_job_completed t2 (lit "j1") 0 (Some (lit "ok")) None
         (one_job (lit "j1") retried) = Ok s' →
       jobs s' !! lit "j1" = Some r' →
       next_run_at r' = None).
Proof.
  intros retried Hclaim.
  specialize (Hclaim _ _ eq_refl (lookup_insert_eq _ _ _)).
  discriminate Hclaim.
Qed.

(** C6, amended. [next_run_at] is cleared on DLQ replay: after [retry_job]
    succeeds it is null, whatever a previous retry had set.
    [mark_job_completed] does not write the column: the completed job keeps
    the [next_run_at] it had. *)
Theorem next_run_at_after_replay_and_completion (now job_id : str)
    (retries : option Z) (code : Z) (out err : option str) (s : store)
    (r : job) :
  jobs s !! job_id = Some r →
  (state r = dead →
     ∃ s' r', Store.retry_job now job_id retries s = Ok s' ∧
              jobs s' !! job_id = Some r' ∧ next_run_at r' = None) ∧
  (∃ s' r', Store.mark_job_completed now job_id code out err s = Ok s' ∧
            jobs s' !! job_id = Some r' ∧ state r' = completed ∧
            next_run_at r' = next_run_at r).
Proof.
  intros Hr. split.
  - intros Hdead. eexists _, _.
    split; [by apply retry_job_row|]. split; [apply lookup_insert_eq|done].
  - eexists _, _.
    split; [by apply mark_job_completed_row|].
    split; [apply lookup_insert_eq|done].
Qed.

Lemma next_run_at_after_replay_and_completion_witness :
  ∃ s' r',
    Store.mark_job_completed t2 (lit "j1") 0 (Some (lit "ok")) None
      (one_job (lit "j1") (sample_job processing 2 3 (Some t1) None (Some t1)))
    = Ok s' ∧
    jobs s' !! lit "j1" = Some r' ∧ state r' = completed ∧
    next_run_at r' = Some t1.
Proof.
  apply (next_run_at_after_replay_and_completion t2 (lit "j1") None 0
           (Some (lit "ok")) None
           (one_job (lit "j1")
              (sample_job processing 2 3 (Some t1) None (Some t1)))
           (sample_job processing 2 3 (Some t1) None (Some t1))).
  vm_compute. reflexivity.
Defined.

(** ** The row selected by a claim *)

Lemma sorts_before_irrefl (a : job) : Store.sorts_before a a = false.
Proof.
  unfold Store.sorts_before.
  rewrite Z.ltb_irrefl, str_ltb_irrefl. by rewrite andb_false_r.
Qed.

Lemma sorts_before_asym (a b : job) :
  Store.sorts_before a b = true → Store.sorts_before b a = false.
Proof.
  unfold Store.sorts_before. intros H.
  apply orb_true_iff in H as [H|H].
  - apply Z.ltb_lt in H.
    rewrite (proj2 (Z.ltb_ge _ _)) by lia.
    rewrite (proj2 (Z.eqb_neq _ _)) by lia. done.
  - apply andb_true_iff in H as [Hp Hc]. apply Z.eqb_eq in Hp.
    rewrite (proj2 (Z.ltb_ge _ _)) by lia.
    by rewrite (str_ltb_asym _ _ Hc), andb_false_r.
Qed.

Lemma sorts_before_cotrans (a b c : job) :
  Store.sorts_before a c = true →
  Store.sorts_before a b = true ∨ Store.sorts_before b c = true.
Proof.
  unfold Store.sorts_before. intros H.
  destruct (Z.ltb_spec (priority b) (priority a)) as [Hba|Hba]; [by left|].
  destruct (Z.ltb_spec (priority c) (priority b)) as [Hcb|Hcb]; [by right|].
  simpl. apply orb_true_iff in H as [H|H].
  { apply Z.ltb_lt in H. lia. }
  apply andb_true_iff in H as [Hp Hc]. apply Z.eqb_eq in Hp.
  assert (priority a = priority b) as Hab by lia.
  assert (priority b = priority c) as Hbc by lia.
  rewrite (proj2 (Z.eqb_eq _ _) Hab), (proj2 (Z.eqb_eq _ _) Hbc). simpl.
  by apply str_ltb_cotrans.
Qed.

Lemma first_by_order_none (rows : list (str * job)) :
  Store.first_by_order rows = None → rows = [].
Proof.
  destruct rows as [|x rest]; [done|]. simpl.
  destruct (Store.first_by_order rest) as [y|]; [|done].
  by destruct (Store.sorts_before y.2 x.2).
Qed.

Lemma first_by_order_elem (rows : list (str * job)) x :
  Store.first_by_order rows = Some x → x ∈ rows.
Proof.
  revert x. induction rows as [|z rest IH]; intros x; simpl; [done|].
  destruct (Store.first_by_order rest) as [y|].
  - destruct (Store.sorts_before y.2 z.2); intros [= <-].
    + right. by apply IH.
    + left.
  - intros [= <-]. left.
Qed.

Lemma first_by_order_least (rows : list (str * job)) x :
  Store.first_by_order rows = Some x →
  ∀ y, y ∈ rows → Store.sorts_before y.2 x.2 = false.
Proof.
  revert x. induction rows as [|z rest IH]; intros x; simpl; [done|].
  destruct (Store.first_by_order rest) as [w|] eqn:Hrest.
  - destruct (Store.sorts_before w.2 z.2) eqn:Hwz; intros [= <-] y Hy.
    + apply elem_of_cons in Hy as [->|Hy].
      * by apply sorts_before_asym.
      * by apply (IH w).
    + apply elem_of_cons in Hy as [->|Hy].
      * apply sorts_before_irrefl.
      * destruct (Store.sorts_before y.2 z.2) eqn:Hyz; [|done].
        destruct (sorts_before_cotrans _ w.2 _ Hyz) as [Hyw|Hwz'].
        -- by rewrite (IH w eq_refl y Hy) in Hyw.
        -- by rewrite Hwz in Hwz'.
  - intros [= <-] y Hy. apply first_by_order_none in Hrest as ->.
    apply elem_of_cons in Hy as [->|Hy].
    + apply sorts_before_irrefl.
    + by apply elem_of_nil in Hy.
Qed.

Lemma select_claimable_some (now : str) (t : gmap str job) (job_id : str) :
  Store.select_claimable now t = Some job_id →
  ∃ r, t !! job_id = Some r ∧ Store.claimable now r = true ∧
       ∀ other r', t !! other = Some r' → Store.claimable now r' = true →
                   Store.sorts_before r' r = false.
Proof.
  unfold Store.select_claimable. intros Hsel.
  destruct (Store.first_by_order _) as [[k r]|] eqn:Hfirst; [|done].
  injection Hsel as ->.
  pose proof (first_by_order_elem _ _ Hfirst) as Hin.
  apply list_elem_of_filter in Hin as [Hcl Hin]. simpl in Hcl.
  apply elem_of_map_to_list in Hin.
  exists r. split; [done|]. split; [by apply Is_true_eq_true|].
  intros other r' Hother Hcl'.
  apply (first_by_order_least _ _ Hfirst (other, r')).
  apply list_elem_of_filter. split; [simpl; by rewrite Hcl'|].
  by apply elem_of_map_to_list.
Qed.

Lemma select_claimable_none (now : str) (t : gmap str job) :
  Store.select_claimable now t = None →
  ∀ job_id r, t !! job_id = Some r → Store.claimable now r = false.
Proof.
  unfold Store.select_claimable. intros Hsel job_id r Hr.
  destruct (Store.first_by_order _) as [x|] eqn:Hfirst; [done|].
  apply first_by_order_none in Hfirst.
  destruct (Store.claimable now r) eqn:Hcl; [|done].
  assert ((job_id, r) ∈ filter (λ kr : str * job, Store.claimable now kr.2)
                          (map_to_list t)) as Hin.
  { apply list_elem_of_filter. split; [simpl; by rewrite Hcl|].
    by apply elem_of_map_to_list. }
  rewrite Hfirst in Hin. by apply elem_of_nil in Hin.
Qed.

Lemma claimable_pending (now : str) (r : job) :
  Store.claimable now r = true → state r = pending.
Proof.
  unfold Store.claimable. intros H.
  apply andb_true_iff in H as [H _]. by apply bool_decide_eq_true in H.
Qed.

Lemma claim_selected_pending (now job_id : str) (s : store) (r : job) :
  jobs s !! job_id = Some r → state r = pending →
  Store.claim_selected now job_id s =
  (Some (job_id, Store.claim_set now r),
   with_jobs (<[job_id := Store.claim_set now r]> (jobs s)) s).
Proof.
  intros Hr Hst. unfold Store.claim_selected.
  rewrite (sql_update_hit _ _ _ _ r Hr) by (by apply bool_decide_eq_true_2).
  simpl. by rewrite lookup_insert_eq.
Qed.

Lemma claim_selected_zero_rows (now job_id : str) (s : store) :
  (Store.sql_update job_id (λ r, bool_decide (state r = pending))
     (Store.claim_set now) (jobs s)).2 = 0 →
  Store.claim_selected now job_id s = (None, s).
Proof.
  unfold Store.claim_selected.
  destruct (Store.sql_update _ _ _ _) as [t rowcount]. simpl.
  by intros ->.
Qed.

Lemma claim_job_some (now : str) (s : store) job_id r' s' :
  Store.claim_job now s = (Some (job_id, r'), s') →
  ∃ r, Store.select_claimable now (jobs s) = Some job_id ∧
       jobs s !! job_id = Some r ∧ Store.claimable now r = true ∧
       r' = Store.claim_set now r ∧
       s' = with_jobs (<[job_id := r']> (jobs s)) s.
Proof.
  unfold Store.claim_job.
  destruct (Store.select_claimable now (jobs s)) as [k|] eqn:Hsel; [|done].
  destruct (select_claimable_some _ _ _ Hsel) as (r & Hr & Hcl & _).
  rewrite (claim_selected_pending _ _ _ r Hr (claimable_pending _ _ Hcl)).
  intros [= <- <- <-]. by exists r.
Qed.

Lemma claim_job_none (now : str) (s : store) s' :
  Store.claim_job now s = (None, s') →
  s' = s ∧ Store.select_claimable now (jobs s) = None.
Proof.
  unfold Store.claim_job.
  destruct (Store.select_claimable now (jobs s)) as [k|] eqn:Hsel.
  - destruct (select_claimable_some _ _ _ Hsel) as (r & Hr & Hcl & _).
    by rewrite (claim_selected_pending _ _ _ r Hr (claimable_pending _ _ Hcl)).
  - by intros [= <-].
Qed.

(** ** [started_at] at a claim *)

(** C7, as stated, fails: a job that was claimed at [t0], failed and is
    claimed again at [t2] has its [started_at] moved to [t2]. *)
Lemma reclaim_moves_started_at :
  let retried := sample_job pending 1 3 (Some t0) None (Some t1) in
  ¬ (∀ job_id r' s',
       Store.claim_job t2 (one_job (lit "j1") retried) = (Some (job_id, r'), s') →
       started_at r' = started_at retried).
Proof.
  intros retried Hclaim.
  specialize (Hclaim (lit "j1") (Store.claim_set t2 retried)
                (one_job (lit "j1") (Store.claim_set t2 retried))).
  assert (Some t2 = Some t0) as Heq by (apply Hclaim; vm_compute; reflexivity).
  vm_compute in Heq. discriminate Heq.
Qed.

(** C7, amended. Every successful [claim_job] writes [started_at]: the
    claimed job was [pending], and it comes back [processing] with
    [attempts] one higher and with [started_at] and [updated_at] both equal
    to the time of this claim, whatever [started_at] held before. *)
Theorem claim_sets_started_at (now : str) (s : store) (job_id : str)
    (r' : job) (s' : store) :
  Store.claim_job now s = (Some (job_id, r'), s') →
  ∃ r, jobs s !! job_id = Some r ∧ state r = pending ∧
       jobs s' !! job_id = Some r' ∧
       state r' = processing ∧ attempts r' = (attempts r + 1)%N ∧
       updated_at r' = now ∧ started_at r' = Some now.
Proof.
  intros Hclaim.
  destruct (claim_job_some _ _ _ _ _ Hclaim) as (r & _ & Hr & Hcl & -> & ->).
  exists r. split; [done|]. split; [by apply (claimable_pending now)|].
  split; [apply lookup_insert_eq|done].
Qed.

Lemma claim_sets_started_at_witness :
  ∃ r, jobs (one_job (lit "j1")
               (sample_job pending 1 3 (Some t0) None (Some t1)))
         !! lit "j1" = Some r ∧
       started_at r = Some t0 ∧
       started_at (Store.claim_set t2 r) = Some t2.
Proof.
  destruct (claim_sets_started_at t2
              (one_job (lit "j1")
                 (sample_job pending 1 3 (Some t0) None (Some t1)))
              (lit "j1")
              (Store.claim_set t2
                 (sample_job pending 1 3 (Some t0) None (Some t1)))
              (one_job (lit "j1")
                 (Store.claim_set t2
                    (sample_job pending 1 3 (Some t0) None (Some t1)))))
    as (r & Hr & _ & Hr' & _ & _ & _ & Hstarted).
  - vm_compute. reflexivity.
  - exists r. split; [exact Hr|].
    vm_compute in Hr. injection Hr as <-. split; reflexivity.
Defined.

(** ** Which job a claim selects *)

Lemma claimable_eligible_by_text (now : str) (r : job) :
  Store.claimable now r = true ↔ eligible_by_text now r.
Proof.
  unfold Store.claimable, eligible_by_text, str_leb. split.
  - intros H. apply andb_true_iff in H as [Hst Hnext].
    apply bool_decide_eq_true in Hst. split; [done|].
    intros t Ht. rewrite Ht in Hnext. by destruct (str_compare t now).
  - intros [Hst Hnext]. apply andb_true_iff.
    split; [by apply bool_decide_eq_true|].
    destruct (next_run_at r) as [t|]; [|done].
    specialize (Hnext t eq_refl). by destruct (str_compare t now).
Qed.

Lemma not_sorts_before (a b : job) :
  Store.sorts_before b a = false → dispatched_no_later a b.
Proof.
  unfold Store.sorts_before, dispatched_no_later. intros H.
  apply orb_false_iff in H as [Hp Hc]. apply Z.ltb_ge in Hp.
  destruct (Z.eq_dec (priority a) (priority b)) as [Heq|Hne]; [|left; lia].
  right. split; [done|].
  rewrite Heq, Z.eqb_refl in Hc. simpl in Hc.
  unfold str_ltb in Hc. rewrite (str_compare_flip (created_at a)) in Hc.
  by destruct (str_compare (created_at a) (created_at b)).
Qed.

(** C2, as stated, fails: [claim_job] compares [next_run_at] with [now] as
    texts, not as times.  A [pending] job whose [next_run_at] is 07:00 in a
    zone five hours behind UTC, which is 12:00 UTC, is handed out by a
    claim at 08:00 UTC, four hours before it is due. *)
Lemma claim_job_hands_out_future_job :
  let s := one_job (lit "j1")
             (sample_job pending 0 3 None None (Some due_at_noon)) in
  ¬ (∀ job_id r t,
       jobs s !! job_id = Some r → next_run_at r = Some t →
       lies_in_future at_eight t →
       ∀ r' s', Store.claim_job at_eight s ≠ (Some (job_id, r'), s')).
Proof.
  intros s Hnever.
  apply (Hnever (lit "j1") _ due_at_noon eq_refl eq_refl
           ltac:(eexists _, _; split; [vm_compute; reflexivity|];
                 split; [vm_compute; reflexivity|]; reflexivity)
           (Store.claim_set at_eight
              (sample_job pending 0 3 None None (Some due_at_noon)))
           (Store.claim_job at_eight s).2).
  vm_compute. reflexivity.
Qed.

(** In the other direction, a [pending] job whose [next_run_at] is 09:00 in
    a zone five hours ahead of UTC, which is 04:00 UTC, is eligible by time
    at 08:00 UTC and is not handed out. *)
Lemma claim_job_holds_back_due_job :
  let r := sample_job pending 0 3 None None (Some due_at_four) in
  eligible_by_time at_eight r ∧
  Store.claim_job at_eight (one_job (lit "j1") r) =
    (None, one_job (lit "j1") r).
Proof.
  split; [|vm_compute; reflexivity].
  split; [reflexivity|]. intros t [= <-].
  eexists _, _. split; [vm_compute; reflexivity|].
  split; [vm_compute; reflexivity|]. vm_compute. discriminate.
Qed.

(** C2, amended. Eligibility is by the order of the stored texts: a
    [pending] job is eligible at [now] when its [next_run_at] is absent or
    a text that does not come after the text [now].  When some job is
    eligible in this sense, [claim_job] claims an eligible job that is
    dispatched no later than every other eligible one: highest priority
    first, earliest [created_at] (again as a text) among equal priorities.
    When no job is eligible it returns no job and changes nothing.  A job
    whose [next_run_at] comes after [now] as a text is never the one
    returned. *)
Theorem claim_job_selects_first (now : str) (s : store) :
  ((∃ job_id r, jobs s !! job_id = Some r ∧ eligible_by_text now r) →
   ∃ job_id r s',
     Store.claim_job now s = (Some (job_id, Store.claim_set now r), s') ∧
     jobs s !! job_id = Some r ∧ eligible_by_text now r ∧
     jobs s' !! job_id = Some (Store.claim_set now r) ∧
     ∀ other r', jobs s !! other = Some r' → eligible_by_text now r' →
                 dispatched_no_later r r') ∧
  ((∀ job_id r, jobs s !! job_id = Some r → ¬ eligible_by_text now r) →
   Store.claim_job now s = (None, s)) ∧
  (∀ job_id r t, jobs s !! job_id = Some r → next_run_at r = Some t →
                 str_compare t now = Gt →
                 ∀ r' s', Store.claim_job now s ≠ (Some (job_id, r'), s')).
Proof.
  split; [|split].
  - intros (k & r0 & Hr0 & Hel0).
    destruct (Store.claim_job now s) as [[[job_id r']|] s'] eqn:Hclaim.
    + destruct (claim_job_some _ _ _ _ _ Hclaim) as (r & Hsel & Hr & Hcl & -> & Hs').
      exists job_id, r, s'. split; [done|]. split; [done|].
      split; [by apply claimable_eligible_by_text|].
      split; [rewrite Hs'; apply lookup_insert_eq|].
      intros other r2 Hr2 Hel2. apply not_sorts_before.
      destruct (select_claimable_some _ _ _ Hsel) as (r3 & Hr3 & _ & Hleast).
      assert (r3 = r) as -> by congruence.
      apply (Hleast other r2 Hr2). by apply claimable_eligible_by_text.
    + destruct (claim_job_none _ _ _ Hclaim) as [_ Hsel].
      apply claimable_eligible_by_text in Hel0.
      by rewrite (select_claimable_none _ _ Hsel k r0 Hr0) in Hel0.
  - intros Hnone.
    destruct (Store.claim_job now s) as [[[job_id r']|] s'] eqn:Hclaim.
    + destruct (claim_job_some _ _ _ _ _ Hclaim) as (r & _ & Hr & Hcl & _).
      apply claimable_eligible_by_text in Hcl. by destruct (Hnone job_id r Hr).
    + by destruct (claim_job_none _ _ _ Hclaim) as [-> _].
  - intros job_id r t Hr Ht Hgt r' s' Hclaim.
    destruct (claim_job_some _ _ _ _ _ Hclaim) as (r2 & _ & Hr2 & Hcl & _).
    assert (r2 = r) as -> by congruence.
    apply claimable_eligible_by_text in Hcl as [_ Hnext].
    by apply (Hnext t Ht).
Qed.

Lemma claim_job_selects_first_witness :
  ∃ job_id r s',
    Store.claim_job t2 two_priorities =
      (Some (job_id, Store.claim_set t2 r), s') ∧
    jobs two_priorities !! job_id = Some r ∧ priority r = 5.
Proof.
  destruct (proj1 (claim_job_selects_first t2 two_priorities))
    as (job_id & r & s' & Hclaim & Hr & _ & _ & _).
  - exists (lit "low"), low_job.
    split; [vm_compute; reflexivity|].
    split; [reflexivity|]. intros t Ht. discriminate Ht.
  - exists job_id, r, s'. split; [exact Hclaim|]. split; [exact Hr|].
    vm_compute in Hclaim. injection Hclaim as Hid Hrow _.
    rewrite <- Hid in Hr. vm_compute in Hr. injection Hr as <-. reflexivity.
Defined.

(** ** Truncation of captured output *)

Lemma utf8_length_bound (text : str) :
  (length text ≤ utf8_length text ≤ 4 * length text)%nat.
Proof.
  unfold utf8_length. induction text as [|c text IH]; [simpl; lia|].
  cbn [foldr length].
  assert (1 ≤ utf8_width c ≤ 4)%nat as Hw.
  { unfold utf8_width. repeat case_match; lia. }
  lia.
Qed.

Lemma head_or_none_kept (limit : Z) (given : option str) :
  0 ≤ limit → head_kept limit given (head_or_none limit given).
Proof.
  intros Hlimit. destruct given as [[|c text]|]; [done| |done].
  unfold head_kept, head_or_none.
  exists (take (Z.to_nat limit) (c :: text)), (drop (Z.to_nat limit) (c :: text)).
  split; [done|]. split; [by rewrite take_drop|].
  split; [rewrite length_take; lia|apply utf8_length_bound].
Qed.

(** C8, as stated, fails: the limit counts characters, not bytes.  An output
    of 10,001 copies of U+00E9 is stored as 10,000 characters, which are
    20,000 bytes of UTF-8. *)
Lemma stored_stdout_over_10000_bytes :
  let accents := replicate (Z.to_nat 10001) 233%N in
  ¬ (∀ s' r' kept,
       Store.mark_job_completed t2 (lit "j1") 0 (Some accents) None
         (one_job (lit "j1") (sample_job processing 1 3 (Some t1) None None))
       = Ok s' →
       jobs s' !! lit "j1" = Some r' →
       stdout r' = Some kept →
       Z.of_nat (utf8_length kept) ≤ 10000).
Proof.
  intros accents Hclaim.
  specialize (Hclaim _ _ _ eq_refl (lookup_insert_eq _ _ _) eq_refl).
  apply Z.leb_le in Hclaim. vm_compute in Hclaim. discriminate Hclaim.
Qed.

(** C8, amended. In [mark_job_completed] and in [mark_job_failed] the stored
    [stdout] and [stderr] are the first 10,000 characters (Unicode code
    points) of the captured text and [last_error] the first 2,000 characters
    of the error text: a text within the limit is kept whole, of a longer
    one exactly the first 10,000 (2,000) characters are kept, each of them
    one to four bytes of UTF-8; an empty text is stored as null.
    [mark_job_failed] stores them when it buries the job or the time of the
    next run is in the range of [datetime]; otherwise it raises before its
    UPDATE and stores nothing. *)
Theorem output_truncated_by_characters (isoformat : datetime → str)
    (now : str) (clock : datetime) (job_id : str) (code : Z) (error : str)
    (retries base : Z) (tries : N) (out err : option str) (s : store)
    (r : job) :
  jobs s !! job_id = Some r →
  (∃ s' r', Store.mark_job_completed now job_id code out err s = Ok s' ∧
            jobs s' !! job_id = Some r' ∧
            head_kept 10000 out (stdout r') ∧
            head_kept 10000 err (stderr r')) ∧
  (retries ≤ Z.of_N tries ∨ in_range clock (base ^ Z.of_N tries) →
   ∃ s' r', Store.mark_job_failed isoformat now clock job_id code error
              retries base tries out err s = Ok s' ∧
            jobs s' !! job_id = Some r' ∧
            head_kept 10000 out (stdout r') ∧
            head_kept 10000 err (stderr r') ∧
            head_kept 2000 (Some error) (last_error r')).
Proof.
  intros Hr. split.
  - eexists _, _. split; [by apply mark_job_completed_row|].
    split; [apply lookup_insert_eq|].
    split; apply head_or_none_kept; lia.
  - intros Hfit. destruct (Z_le_gt_dec retries (Z.of_N tries)) as [Hge|Hlt].
    + eexists _, _. split; [by apply mark_job_failed_dead_row|].
      split; [apply lookup_insert_eq|].
      split; [|split]; apply head_or_none_kept; lia.
    + destruct Hfit as [Hge|Hin]; [lia|].
      eexists _, _.
      split; [apply mark_job_failed_retry_row; [done|lia|done]|].
      split; [apply lookup_insert_eq|].
      split; [|split]; apply head_or_none_kept; lia.
Qed.

Lemma output_truncated_by_characters_witness :
  ∃ s' r',
    Store.mark_job_completed t2 (lit "j1") 0
      (Some (replicate (Z.to_nat 10001) 233%N)) None
      (one_job (lit "j1") (sample_job processing 1 3 (Some t1) None None))
    = Ok s' ∧
    jobs s' !! lit "j1" = Some r' ∧
    head_kept 10000 (Some (replicate (Z.to_nat 10001) 233%N)) (stdout r').
Proof.
  destruct (proj1 (output_truncated_by_characters decimal_stamp t2 0
              (lit "j1") 0 (lit "boom") 3 2 1
              (Some (replicate (Z.to_nat 10001) 233%N)) None
              (one_job (lit "j1") (sample_job processing 1 3 (Some t1) None None))
              (sample_job processing 1 3 (Some t1) None None)
              ltac:(vm_compute; reflexivity)))
    as (s' & r' & Hok & Hrow & Hout & _).
  exists s', r'. split; [exact Hok|]. split; [exact Hrow|exact Hout].
Defined.

(** ** Configuration *)

Lemma recognized_key (k d : str) :
  Config.DEFAULTS !! k = Some d →
  (k, d) ∈ [ (lit "max_retries", lit "3"); (lit "backoff_base", lit "2");
             (lit "worker_poll_interval", lit "1");
             (lit "db_path", lit "./data/queuectl.db") ].
Proof. unfold Config.DEFAULTS. apply elem_of_list_to_map_2. Qed.

Lemma recognized_key_normal (k d : str) :
  Config.DEFAULTS !! k = Some d → Config.normalize_config_key k = k.
Proof.
  intros Hk. apply recognized_key in Hk.
  repeat (apply elem_of_cons in Hk as [[= -> ->]|Hk]; [by vm_compute|]).
  by apply elem_of_nil in Hk.
Qed.

Lemma hyphen_key (h k : str) :
  Config.KEY_MAPPING !! h = Some k →
  Config.normalize_config_key h = k ∧ Config.normalize_config_key k = k ∧
  is_Some (Config.DEFAULTS !! k).
Proof.
  intros Hh. unfold Config.normalize_config_key at 1. rewrite Hh.
  split; [done|].
  unfold Config.KEY_MAPPING in Hh. apply elem_of_list_to_map_2 in Hh.
  repeat (apply elem_of_cons in Hh as [[= -> ->]|Hh];
          [split; [by vm_compute|eexists; by vm_compute]|]).
  by apply elem_of_nil in Hh.
Qed.

(** C9. For a recognized key [k], with default [d]: [get_config] returns [d]
    when the store has no entry for [k]; after [set_config k v] it returns
    [v]; and a hyphen form [h] of [k] is normalized to [k], so that it reads
    what [k] reads.  The defaults are "3" for [max_retries], "2" for
    [backoff_base], "1" for [worker_poll_interval] and "./data/queuectl.db"
    for [db_path], and the four keys have the hyphen forms [max-retries],
    [backoff-base], [worker-poll-interval] and [db-path]. *)
Theorem config_defaults_and_round_trip (s : store) (k d v : str) :
  Config.DEFAULTS !! k = Some d →
  (Store.get_config k s = None → Config.get_config s k = Some d) ∧
  (∃ s', Store.set_config k v s = Ok s' ∧ Config.get_config s' k = Some v) ∧
  (∀ h, Config.KEY_MAPPING !! h = Some k →
        Config.normalize_config_key h = k ∧
        Config.get_config s h = Config.get_config s k) ∧
  Config.DEFAULTS !! lit "max_retries" = Some (lit "3") ∧
  Config.DEFAULTS !! lit "backoff_base" = Some (lit "2") ∧
  Config.DEFAULTS !! lit "worker_poll_interval" = Some (lit "1") ∧
  Config.DEFAULTS !! lit "db_path" = Some (lit "./data/queuectl.db") ∧
  Config.KEY_MAPPING !! lit "max-retries" = Some (lit "max_retries") ∧
  Config.KEY_MAPPING !! lit "backoff-base" = Some (lit "backoff_base") ∧
  Config.KEY_MAPPING !! lit "worker-poll-interval" =
    Some (lit "worker_poll_interval") ∧
  Config.KEY_MAPPING !! lit "db-path" = Some (lit "db_path").
Proof.
  intros Hk. pose proof (recognized_key_normal _ _ Hk) as Hnorm.
  split; [|split; [|split]].
  - intros Hnone. unfold Config.get_config. by rewrite Hnorm, Hnone.
  - eexists. split; [reflexivity|].
    unfold Config.get_config, Store.get_config. rewrite Hnorm. simpl.
    by rewrite lookup_insert_eq.
  - intros h Hh. destruct (hyphen_key _ _ Hh) as (Hhk & _ & _).
    split; [done|]. unfold Config.get_config. by rewrite Hhk, Hnorm.
  - repeat split; by vm_compute.
Qed.

Lemma config_defaults_and_round_trip_witness :
  Config.get_config empty_store (lit "backoff_base") = Some (lit "2") ∧
  Config.get_config empty_store (lit "backoff-base") =
    Config.get_config empty_store (lit "backoff_base").
Proof.
  pose proof (config_defaults_and_round_trip empty_store (lit "backoff_base")
                (lit "2") (lit "7") ltac:(vm_compute; reflexivity))
    as (Hdefault & _ & Hhyphen & _).
  split.
  - apply Hdefault. reflexivity.
  - apply (Hhyphen (lit "backoff-base")). vm_compute. reflexivity.
Defined.

(** ** Rows that a call leaves alone *)

Lemma enqueue_keeps (now : str) (jd : job_data) (s : store) job_id r :
  jobs s !! job_id = Some r →
  jobs (Store.committed (Store.enqueue_job now jd s) s) !! job_id = Some r.
Proof.
  intros Hr. unfold Store.enqueue_job.
  destruct (jobs s !! jd_id jd) eqn:Hjd; simpl; [done|].
  rewrite lookup_insert_ne; [done|]. intros Heq. congruence.
Qed.


Lemma mark_job_completed_keeps now j code out err (s : store) job_id :
  j ≠ job_id →
  jobs (Store.committed (Store.mark_job_completed now j code out err s) s)
    !! job_id = jobs s !! job_id.
Proof.
  intros Hne. unfold Store.mark_job_completed.
  pose proof (sql_update_other j (λ _, true)
                (Store.completed_set now code (head_or_none 10000 out)
                   (head_or_none 10000 err)) (jobs s) job_id) as Hother.
  destruct (Store.sql_update _ _ _ _) as [t n]. simpl in *.
  apply Hother. congruence.
Qed.

Lemma mark_job_failed_keeps isoformat now clock j code error retries base
    (tries : N) out err (s : store) job_id :
  j ≠ job_id →
  jobs (Store.committed
          (Store.mark_job_failed isoformat now clock j code error retries
             base tries out err s) s) !! job_id = jobs s !! job_id.
Proof.
  intros Hne.
  destruct (mark_job_failed_effect isoformat now clock j code error retries
              base tries out err s) as [[e ->]|(assign & -> & _)]; [done|].
  simpl. apply sql_update_other. congruence.
Qed.

Lemma retry_job_keeps now j retries (s : store) job_id :
  j ≠ job_id →
  jobs (Store.committed (Store.retry_job now j retries s) s) !! job_id =
  jobs s !! job_id.
Proof.
  intros Hne. unfold Store.retry_job.
  destruct (jobs s !! j) as [row|] eqn:Hrow; [|done].
  destruct (bool_decide (state row ≠ dead)); [done|].
  rewrite (sql_update_hit _ _ _ _ row Hrow) by done. simpl.
  rewrite lookup_insert_ne; [done|congruence].
Qed.

Lemma retry_job_refused now job_id retries (s : store) r :
  jobs s !! job_id = Some r → state r ≠ dead →
  Store.committed (Store.retry_job now job_id retries s) s = s.
Proof.
  intros Hr Hst. unfold Store.retry_job. rewrite Hr.
  by rewrite bool_decide_eq_true_2.
Qed.

(** ** Terminal jobs *)






(** ** How a row becomes [processing], and what [attempts] counts *)

Ltac split_update_in H Hrow :=
  match type of H with
  | context [Store.sql_update ?j ?g ?f ?t] =>
      destruct (t !! j) as [?row|] eqn:Hrow;
      [rewrite (sql_update_hit j g f t _ Hrow) in H by done
      |rewrite (sql_update_absent j g f t Hrow) in H]
  end.

Lemma processing_only_by_claim (isoformat : datetime → str) (o : Store.op)
    (s : store) (job_id : str) (r' : job) :
  jobs (Store.step isoformat o s) !! job_id = Some r' →
  state r' = processing →
  ∃ r, jobs s !! job_id = Some r ∧
       ((state r = processing ∧ r' = r) ∨
        (state r = pending ∧
         ∃ now, o = Store.ClaimJob now ∧ r' = Store.claim_set now r)).
Proof.
  intros Hr' Hst.
  assert (jobs s !! job_id = Some r' →
          ∃ r, jobs s !! job_id = Some r ∧
               ((state r = processing ∧ r' = r) ∨
                (state r = pending ∧
                 ∃ now, o = Store.ClaimJob now ∧ r' = Store.claim_set now r)))
    as Hsame by (intros H; exists r'; split; [done|by left]).
  destruct o as [now jd|now|now j code out err
                |now clock j code error retries base tries out err
                |now j retries|key value]; simpl in Hr'.
  - unfold Store.enqueue_job in Hr'.
    destruct (jobs s !! jd_id jd) eqn:Hjd; simpl in Hr'; [by apply Hsame|].
    apply lookup_insert_Some in Hr' as [[_ <-]|[_ Hr']]; [done|by apply Hsame].
  - destruct (Store.claim_job now s) as [[[k rk]|] s'] eqn:Hclaim; simpl in Hr'.
    + destruct (claim_job_some _ _ _ _ _ Hclaim) as (r0 & _ & Hr0 & Hcl & -> & ->).
      simpl in Hr'.
      apply lookup_insert_Some in Hr' as [[-> <-]|[_ Hr']]; [|by apply Hsame].
      exists r0. split; [done|]. right.
      split; [by apply (claimable_pending now)|by exists now].
    + destruct (claim_job_none _ _ _ Hclaim) as [-> _]. by apply Hsame.
  - destruct (decide (j = job_id)) as [->|Hne].
    + unfold Store.mark_job_completed in Hr'.
      split_update_in Hr' Hrow; simpl in Hr'.
      * rewrite lookup_insert_eq in Hr'. by injection Hr' as <-.
      * congruence.
    + rewrite mark_job_completed_keeps in Hr' by done. by apply Hsame.
  - destruct (decide (j = job_id)) as [->|Hne].
    + destruct (mark_job_failed_effect isoformat now clock job_id code error
                  retries base tries out err s)
        as [[e Hraise]|(assign & Hok & Hassign)]; rewrite ?Hraise, ?Hok in Hr';
        simpl in Hr'; [by apply Hsame|].
      split_update_in Hr' Hrow; simpl in Hr'; [|congruence].
      rewrite lookup_insert_eq in Hr'. injection Hr' as <-.
      by destruct (Hassign row) as [Hstate _].
    + rewrite mark_job_failed_keeps in Hr' by done. by apply Hsame.
  - destruct (decide (j = job_id)) as [->|Hne].
    + unfold Store.retry_job in Hr'.
      destruct (jobs s !! job_id) as [row|] eqn:Hrow;
        [|simpl in Hr'; congruence].
      destruct (bool_decide (state row ≠ dead));
        [simpl in Hr'; apply Hsame; congruence|].
      rewrite (sql_update_hit _ _ _ _ row Hrow) in Hr' by done. simpl in Hr'.
      rewrite lookup_insert_eq in Hr'. by injection Hr' as <-.
    + rewrite retry_job_keeps in Hr' by done. by apply Hsame.
  - by apply Hsame.
Qed.

Lemma attempts_step (isoformat : datetime → str) (o : Store.op) (s : store)
    (job_id : str) (count : N) :
  (∀ r, jobs s !! job_id = Some r → attempts r = count) →
  ∀ r', jobs (Store.step isoformat o s) !! job_id = Some r' →
        attempts r' = (if resets o job_id s then 0
                       else if claims o job_id s then count + 1
                       else count)%N.
Proof.
  intros Hcount r' Hr'.
  destruct o as [now jd|now|now j code out err
                |now clock j code error retries base tries out err
                |now j retries|key value]; simpl in *.
  - unfold Store.enqueue_job in *.
    destruct (jobs s !! jd_id jd) eqn:Hjd; simpl in *.
    + rewrite andb_false_r. by apply Hcount.
    + rewrite andb_true_r.
      apply lookup_insert_Some in Hr' as [[Hid <-]|[Hne Hr']].
      * by rewrite bool_decide_eq_true_2.
      * rewrite bool_decide_eq_false_2 by done. by apply Hcount.
  - destruct (Store.claim_job now s) as [[[k rk]|] s'] eqn:Hclaim; simpl in *.
    + destruct (claim_job_some _ _ _ _ _ Hclaim) as (r0 & _ & Hr0 & _ & -> & ->).
      simpl in Hr'.
      apply lookup_insert_Some in Hr' as [[-> <-]|[Hne Hr']].
      * rewrite bool_decide_eq_true_2 by done. simpl.
        by rewrite (Hcount r0 Hr0).
      * rewrite bool_decide_eq_false_2 by done. by apply Hcount.
    + destruct (claim_job_none _ _ _ Hclaim) as [-> _]. by apply Hcount.
  - destruct (decide (j = job_id)) as [->|Hne].
    + unfold Store.mark_job_completed in Hr'.
      split_update_in Hr' Hrow; simpl in Hr'.
      * rewrite lookup_insert_eq in Hr'. injection Hr' as <-. simpl.
        by apply Hcount.
      * congruence.
    + rewrite mark_job_completed_keeps in Hr' by done. by apply Hcount.
  - destruct (decide (j = job_id)) as [->|Hne].
    + destruct (mark_job_failed_effect isoformat now clock job_id code error
                  retries base tries out err s)
        as [[e Hraise]|(assign & Hok & Hassign)]; rewrite ?Hraise, ?Hok in Hr';
        simpl in Hr'; [by apply Hcount|].
      split_update_in Hr' Hrow; simpl in Hr'; [|congruence].
      rewrite lookup_insert_eq in Hr'. injection Hr' as <-.
      destruct (Hassign row) as (_ & _ & -> & _). by apply Hcount.
    + rewrite mark_job_failed_keeps in Hr' by done. by apply Hcount.
  - destruct (decide (j = job_id)) as [->|Hne].
    + rewrite bool_decide_eq_true_2 by done. simpl.
      unfold Store.retry_job in *.
      destruct (jobs s !! job_id) as [row|] eqn:Hrow;
        [|simpl in *; congruence].
      destruct (bool_decide (state row ≠ dead));
        [simpl in *; apply Hcount; congruence|].
      rewrite (sql_update_hit _ _ _ _ row Hrow) in * by done. simpl in *.
      rewrite lookup_insert_eq in Hr'. by injection Hr' as <-.
    + rewrite bool_decide_eq_false_2 by done. simpl.
      rewrite retry_job_keeps in Hr' by done. by apply Hcount.
  - by apply Hcount.
Qed.

Lemma attempts_run (isoformat : datetime → str) (ops : list Store.op)
    (s : store) (job_id : str) (count : N) :
  (∀ r, jobs s !! job_id = Some r → attempts r = count) →
  ∀ r', jobs (Store.run isoformat ops s) !! job_id = Some r' →
        attempts r' = claims_since_reset isoformat job_id ops s count.
Proof.
  revert s count. induction ops as [|o rest IH]; intros s count Hcount r' Hr'.
  - by apply Hcount.
  - simpl. apply IH; [|done].
    by apply attempts_step.
Qed.

(** C1. [claim_job] is the guarded UPDATE of the row its SELECT found.  On a
    [pending] row the update moves it to [processing] and adds exactly one
    to [attempts]; when it changes no row (no row of that id is [pending])
    [claim_job] rolls back and returns no job, leaving the database as it
    was, without another try.  Hence, over all calls of the store, a row
    that is [processing] after a call was [processing] before it and is
    unchanged, or was [pending] and has just been claimed; and along any
    history that starts before the job exists, [attempts] is the number of
    successful claims since the insert or the last successful replay. *)
Theorem claim_guard_and_attempts (isoformat : datetime → str)
    (now job_id : str) (s : store) :
  Store.claim_job now s =
    match Store.select_claimable now (jobs s) with
    | None => (None, s)
    | Some selected => Store.claim_selected now selected s
    end ∧
  (∀ r, jobs s !! job_id = Some r → state r = pending →
        ∃ r', Store.claim_selected now job_id s =
                (Some (job_id, r'), with_jobs (<[job_id := r']> (jobs s)) s) ∧
              state r' = processing ∧ attempts r' = (attempts r + 1)%N) ∧
  ((∀ r, jobs s !! job_id = Some r → state r ≠ pending) →
   (Store.sql_update job_id (λ r, bool_decide (state r = pending))
      (Store.claim_set now) (jobs s)).2 = 0) ∧
  ((Store.sql_update job_id (λ r, bool_decide (state r = pending))
      (Store.claim_set now) (jobs s)).2 = 0 →
   Store.claim_selected now job_id s = (None, s)) ∧
  (∀ o r', jobs (Store.step isoformat o s) !! job_id = Some r' →
           state r' = processing →
           ∃ r, jobs s !! job_id = Some r ∧
                ((state r = processing ∧ r' = r) ∨
                 (state r = pending ∧
                  ∃ at_time, o = Store.ClaimJob at_time ∧
                             r' = Store.claim_set at_time r ∧
                             attempts r' = (attempts r + 1)%N))) ∧
  (∀ ops r', jobs s !! job_id = None →
             jobs (Store.run isoformat ops s) !! job_id = Some r' →
             attempts r' = claims_since_reset isoformat job_id ops s 0).
Proof.
  split; [done|]. split; [|split; [|split; [|split]]].
  - intros r Hr Hst. exists (Store.claim_set now r).
    split; [by apply claim_selected_pending|done].
  - intros Hnot. unfold Store.sql_update.
    destruct (jobs s !! job_id) as [r|] eqn:Hr; [|done].
    by rewrite bool_decide_eq_false_2 by (by apply Hnot).
  - apply claim_selected_zero_rows.
  - intros o r' Hr' Hst.
    destruct (processing_only_by_claim _ _ _ _ _ Hr' Hst)
      as (r & Hr & [Hsame|(Hpending & at_time & -> & ->)]).
    + exists r. split; [done|by left].
    + exists r. split; [done|]. right. split; [done|]. by exists at_time.
  - intros ops r' Habsent Hr'.
    apply (attempts_run isoformat ops s job_id 0%N); [|done].
    intros r Hr. congruence.
Qed.

Lemma claim_guard_and_attempts_witness :
  ∃ r', jobs (Store.run decimal_stamp sample_history empty_store) !! lit "j1"
        = Some r' ∧
        state r' = processing ∧ attempts r' = 2%N.
Proof.
  destruct (claim_guard_and_attempts decimal_stamp t0 (lit "j1") empty_store)
    as (_ & _ & _ & _ & _ & Hcount).
  eexists. split; [vm_compute; reflexivity|]. split; [reflexivity|].
  rewrite (Hcount sample_history _ eq_refl
             ltac:(vm_compute; reflexivity)).
  vm_compute. reflexivity.
Defined.

(** ** Failure: retry or dead letter *)

Lemma budget_insert (s : store) (job_id : str) (r : job) :
  budget_respected s →
  (state r = dead → max_retries r ≤ Z.of_N (attempts r)) →
  budget_respected (with_jobs (<[job_id := r]> (jobs s)) s).
Proof.
  intros Hs Hr k rk Hk Hdead. simpl in Hk.
  apply lookup_insert_Some in Hk as [[_ <-]|[_ Hk]]; [by apply Hr|].
  by apply (Hs k).
Qed.

Lemma budget_mark_job_completed now job_id code out err (s : store) :
  budget_respected s →
  budget_respected
    (Store.committed (Store.mark_job_completed now job_id code out err s) s).
Proof.
  intros Hs. destruct (jobs s !! job_id) as [r|] eqn:Hr.
  - rewrite (mark_job_completed_row _ _ _ _ _ _ r Hr). simpl.
    by apply budget_insert.
  - by rewrite (mark_job_completed_absent _ _ _ _ _ _ Hr).
Qed.

Lemma budget_mark_job_failed isoformat now clock job_id code error base out
    err (s : store) (r : job) :
  budget_respected s →
  jobs s !! job_id = Some r →
  budget_respected
    (Store.committed
       (Store.mark_job_failed isoformat now clock job_id code error
          (max_retries r) base (attempts r) out err s) s).
Proof.
  intros Hs Hr.
  destruct (mark_job_failed_effect isoformat now clock job_id code error
              (max_retries r) base (attempts r) out err s)
    as [[e ->]|(assign & -> & Hassign)]; [done|].
  rewrite (sql_update_hit _ _ _ _ r Hr) by done. simpl.
  apply budget_insert; [done|].
  destruct (Hassign r) as (_ & Hdead & -> & ->). done.
Qed.

Lemma budget_execute_job isoformat py_int now clock ran job_id
    (s : store) (r : job) :
  budget_respected s →
  jobs s !! job_id = Some r →
  budget_respected
    (Store.committed
       (Worker._execute_job isoformat py_int now clock ran (job_id, r) s) s).
Proof.
  intros Hs Hr. unfold Worker._execute_job. simpl.
  destruct (Executor.success (Executor.execute_job_command ran)).
  - rewrite (mark_job_completed_row _ _ _ _ _ _ r Hr).
    simpl. by apply budget_insert.
  - destruct (Worker.read_backoff_base py_int s) as [base|e]; simpl; [|done].
    match goal with
    | |- context [match ?call with Ok _ => _ | Raise _ => _ end] =>
        destruct call as [s'|e] eqn:Hcall
    end.
    + rewrite <- Hcall. by apply budget_mark_job_failed.
    + by apply budget_mark_job_failed.
Qed.

Lemma budget_natural_step isoformat py_int (e : event) (s : store) :
  budget_respected s → budget_respected (natural_step isoformat py_int e s).
Proof.
  intros Hs. destruct e as [now jd|claim_now now clock ran|now job_id retries
                           |key value]; simpl.
  - unfold Store.enqueue_job.
    destruct (jobs s !! jd_id jd); simpl; [done|]. by apply budget_insert.
  - unfold Worker.run_once.
    destruct (Store.claim_job claim_now s) as [[[k rk]|] s'] eqn:Hclaim.
    + destruct (claim_job_some _ _ _ _ _ Hclaim) as (r0 & _ & _ & _ & -> & ->).
      apply budget_execute_job.
      * by apply budget_insert.
      * apply lookup_insert_eq.
    + by destruct (claim_job_none _ _ _ Hclaim) as [-> _].
  - unfold Store.retry_job.
    destruct (jobs s !! job_id) as [row|] eqn:Hrow; [|done].
    destruct (bool_decide (state row ≠ dead)); [done|].
    rewrite (sql_update_hit _ _ _ _ row Hrow) by done. simpl.
    by apply budget_insert.
  - intros k rk Hk. by apply (Hs k).
Qed.

Lemma budget_natural_run isoformat py_int (events : list event) (s : store) :
  budget_respected s → budget_respected (natural_run isoformat py_int events s).
Proof.
  revert s. induction events as [|e rest IH]; intros s Hs; [done|].
  simpl. apply IH. by apply budget_natural_step.
Qed.

(** Whether [mark_job_failed] raises, and what, is settled by the clock
    reading, the base and the two counts: a call that raised raises again
    when these are the same. *)
Lemma mark_job_failed_raises_again isoformat now clock job_id code error
    retries base (tries : N) out err (s : store) (e : exn)
    now' code' error' out' err' :
  Store.mark_job_failed isoformat now clock job_id code error retries base
    tries out err s = Raise e →
  Store.mark_job_failed isoformat now' clock job_id code' error' retries base
    tries out' err' s = Raise e.
Proof.
  intros Hraise.
  destruct (Z_le_gt_dec retries (Z.of_N tries)) as [Hge|Hlt].
  - unfold Store.mark_job_failed in Hraise.
    rewrite (proj2 (Z.geb_le _ _) Hge) in Hraise.
    by destruct (Store.sql_update _ _ _ _).
  - rewrite mark_job_failed_retry_path in Hraise |- * by lia.
    by destruct (next_run clock (base ^ Z.of_N tries)).
Qed.

(** The worker on a failed run: it hands [mark_job_failed] the [attempts]
    and [max_retries] of the job it claimed. *)
Lemma execute_job_failure isoformat py_int now clock (exit_code : Z)
    (out err : str) (job_id : str) (r : job) (s : store) (base : Z) :
  exit_code ≠ 0 →
  Worker.read_backoff_base py_int s = Ok base →
  ∃ error,
    Worker._execute_job isoformat py_int now clock (exit_code, out, err)
      (job_id, r) s =
    Store.mark_job_failed isoformat now clock job_id exit_code error
      (max_retries r) base (attempts r) (Some out)
      (match err with [] => None | _ => Some err end) s.
Proof.
  intros Hcode Hbase. unfold Worker._execute_job. simpl.
  rewrite (proj2 (Z.eqb_neq _ _) Hcode). rewrite Hbase. simpl.
  match goal with
  | |- context [Store.mark_job_failed ?f ?n ?c ?j ?x ?e ?m ?b ?a ?o ?d s] =>
      exists e;
      destruct (Store.mark_job_failed f n c j x e m b a o d s)
        as [s'|raised] eqn:Hcall
  end; [done|].
  by apply (mark_job_failed_raises_again _ _ _ _ _ _ _ _ _ _ _ _ _ _ _ _ _ _
              Hcall).
Qed.



(** * Further properties of the store, the configuration, the worker and
      the commands *)

(** ** The effect of one call on one row *)

Lemma step_row_change (isoformat : datetime → str) (o : Store.op) (s : store)
    (job_id : str) (r' : job) :
  jobs (Store.step isoformat o s) !! job_id = Some r' →
  row_change isoformat job_id o (jobs s !! job_id) r'.
Proof.
  intros Hr'.
  assert (jobs s !! job_id = Some r' →
          row_change isoformat job_id o (jobs s !! job_id) r') as Hsame
    by (intros ->; constructor).
  destruct o as [now jd|now|now j code out err
                |now clock j code error retries base tries out err
                |now j retries|key value]; simpl in Hr'.
  - unfold Store.enqueue_job in Hr'.
    destruct (jobs s !! jd_id jd) eqn:Hjd; simpl in Hr'; [by apply Hsame|].
    apply lookup_insert_Some in Hr' as [[Hid <-]|[_ Hr']]; [|by apply Hsame].
    rewrite <- Hid, Hjd. by constructor.
  - destruct (Store.claim_job now s) as [[[k rk]|] s'] eqn:Hclaim; simpl in Hr'.
    + destruct (claim_job_some _ _ _ _ _ Hclaim) as (r0 & _ & Hr0 & Hcl & -> & ->).
      simpl in Hr'.
      apply lookup_insert_Some in Hr' as [[-> <-]|[_ Hr']]; [|by apply Hsame].
      rewrite Hr0. constructor. by apply (claimable_pending now).
    + destruct (claim_job_none _ _ _ Hclaim) as [-> _]. by apply Hsame.
  - destruct (decide (j = job_id)) as [->|Hne].
    + unfold Store.mark_job_completed in Hr'.
      split_update_in Hr' Hrow; simpl in Hr'; [|congruence].
      rewrite lookup_insert_eq in Hr'. injection Hr' as <-. constructor.
    + rewrite mark_job_completed_keeps in Hr' by done. by apply Hsame.
  - destruct (decide (j = job_id)) as [->|Hne].
    + destruct (Z_le_gt_dec retries (Z.of_N tries)) as [Hge|Hlt].
      * destruct (jobs s !! job_id) as [row|] eqn:Hrow.
        -- rewrite (mark_job_failed_dead_row _ _ _ _ _ _ _ _ _ _ _ _ row
                      Hrow Hge) in Hr'.
           simpl in Hr'. rewrite lookup_insert_eq in Hr'.
           injection Hr' as <-. by constructor.
        -- rewrite mark_job_failed_absent in Hr' by (done || by left).
           simpl in Hr'. congruence.
      * rewrite mark_job_failed_retry_path in Hr' by lia.
        destruct (next_run clock (base ^ Z.of_N tries)) as [t|e] eqn:Hnext;
          simpl in Hr'; [|by apply Hsame].
        apply next_run_ok in Hnext as [_ ->].
        split_update_in Hr' Hrow; simpl in Hr'; [|congruence].
        rewrite lookup_insert_eq in Hr'. injection Hr' as <-.
        constructor. lia.
    + rewrite mark_job_failed_keeps in Hr' by done. by apply Hsame.
  - destruct (decide (j = job_id)) as [->|Hne].
    + unfold Store.retry_job in Hr'.
      destruct (jobs s !! job_id) as [row|] eqn:Hrow;
        [|simpl in Hr'; congruence].
      destruct (bool_decide (state row ≠ dead)) eqn:Hstate;
        [simpl in Hr'; apply Hsame; congruence|].
      rewrite (sql_update_hit _ _ _ _ row Hrow) in Hr' by done. simpl in Hr'.
      rewrite lookup_insert_eq in Hr'. injection Hr' as <-.
      constructor. apply bool_decide_eq_false in Hstate.
      by destruct (decide (state row = dead)).
    + rewrite retry_job_keeps in Hr' by done. by apply Hsame.
  - by apply Hsame.
Qed.

Lemma step_row_kept (isoformat : datetime → str) (o : Store.op) (s : store)
    (job_id : str) (r : job) :
  jobs s !! job_id = Some r →
  is_Some (jobs (Store.step isoformat o s) !! job_id).
Proof.
  intros Hr.
  destruct o as [now jd|now|now j code out err
                |now clock j code error retries base tries out err
                |now j retries|key value]; simpl.
  - by rewrite (enqueue_keeps _ _ _ _ _ Hr).
  - destruct (Store.claim_job now s) as [[[k rk]|] s'] eqn:Hclaim; simpl.
    + destruct (claim_job_some _ _ _ _ _ Hclaim) as (r0 & _ & _ & _ & _ & ->).
      simpl. destruct (decide (k = job_id)) as [->|Hne].
      * by rewrite lookup_insert_eq.
      * by rewrite lookup_insert_ne, Hr.
    + destruct (claim_job_none _ _ _ Hclaim) as [-> _]. by rewrite Hr.
  - destruct (decide (j = job_id)) as [->|Hne].
    + by rewrite (mark_job_completed_row _ _ _ _ _ _ r Hr); simpl;
        rewrite lookup_insert_eq.
    + by rewrite mark_job_completed_keeps, Hr.
  - destruct (decide (j = job_id)) as [->|Hne].
    + destruct (mark_job_failed_effect isoformat now clock job_id code error
                  retries base tries out err s)
        as [[e ->]|(assign & -> & _)]; simpl; [by rewrite Hr|].
      rewrite (sql_update_hit _ _ _ _ r Hr) by done. simpl.
      by rewrite lookup_insert_eq.
    + by rewrite mark_job_failed_keeps, Hr.
  - destruct (decide (j = job_id)) as [->|Hne].
    + destruct (decide (state r = dead)) as [Hdead|Hlive].
      * by rewrite (retry_job_row _ _ _ _ r Hr Hdead); simpl;
          rewrite lookup_insert_eq.
      * by rewrite (retry_job_refused _ _ _ _ r Hr Hlive), Hr.
    + by rewrite retry_job_keeps, Hr.
  - by rewrite Hr.
Qed.

(** ** Enqueueing *)

(** X1. [enqueue_job] with an id that no row has stores a [pending] row
    with [attempts = 0], both timestamps at [now], [max_retries] 3 and
    [priority] 0 unless given, and [get_job] reads it back; the other rows
    and the configuration are untouched.  A second [enqueue_job] with the
    same id raises the integrity error and the stored row stays. *)
Theorem enqueue_then_get (now later : str) (jd again : job_data) (s : store) :
  jobs s !! jd_id jd = None →
  jd_id again = jd_id jd →
  ∃ s',
    Store.enqueue_job now jd s = Ok s' ∧
    Store.get_job (jd_id jd) s' = Some (enqueued_row now jd) ∧
    (∀ other, other ≠ jd_id jd → Store.get_job other s' = Store.get_job other s) ∧
    config s' = config s ∧
    Store.enqueue_job later again s' =
      Raise (IntegrityError (lit "UNIQUE constraint failed: jobs.id")) ∧
    Store.committed (Store.enqueue_job later again s') s' = s'.
Proof.
  intros Hfree Hsame. unfold Store.enqueue_job at 1. rewrite Hfree.
  eexists. split; [reflexivity|].
  unfold Store.get_job. simpl.
  split; [apply lookup_insert_eq|].
  split; [intros other Hne; by rewrite lookup_insert_ne|].
  split; [done|].
  unfold Store.enqueue_job. simpl. rewrite Hsame, lookup_insert_eq.
  by split.
Qed.

Lemma enqueue_then_get_witness :
  ∃ s',
    Store.enqueue_job t0
      {| jd_id := lit "j1"; jd_command := lit "exit 1";
         jd_max_retries := None; jd_next_run_at := None;
         jd_priority := None |} empty_store = Ok s' ∧
    Store.get_job (lit "j1") s' = Some (sample_job pending 0 3 None None None).
Proof.
  destruct (enqueue_then_get t0 t1
              {| jd_id := lit "j1"; jd_command := lit "exit 1";
                 jd_max_retries := None; jd_next_run_at := None;
                 jd_priority := None |}
              {| jd_id := lit "j1"; jd_command := lit "echo";
                 jd_max_retries := Some 1; jd_next_run_at := None;
                 jd_priority := None |}
              empty_store ltac:(reflexivity) ltac:(reflexivity))
    as (s' & Hok & Hget & _).
  exists s'. split; [exact Hok|exact Hget].
Defined.

(** ** The configuration table and its readers *)

(** X2. [Store.set_config] followed by [Store.get_config] of the same key
    gives the written value, for every key and value; the other keys keep
    their value, a second write of the key replaces the first, and the
    jobs are untouched. *)
Theorem store_config_round_trip (key value : str) (s : store) :
  ∃ s',
    Store.set_config key value s = Ok s' ∧
    Store.get_config key s' = Some value ∧
    (∀ other, other ≠ key → Store.get_config other s' = Store.get_config other s) ∧
    jobs s' = jobs s ∧
    (∀ newer, Store.set_config key newer s' = Store.set_config key newer s).
Proof.
  eexists. split; [reflexivity|]. unfold Store.get_config. simpl.
  split; [apply lookup_insert_eq|].
  split; [intros other Hne; by rewrite lookup_insert_ne|].
  split; [done|].
  intros newer. unfold Store.set_config. simpl.
  by rewrite insert_insert_eq.
Qed.

Lemma store_config_round_trip_witness :
  ∃ s',
    Store.set_config (lit "backoff_base") (lit "1") empty_store = Ok s' ∧
    Store.get_config (lit "backoff_base") s' = Some (lit "1") ∧
    Store.get_config (lit "max_retries") s' = None.
Proof.
  destruct (store_config_round_trip (lit "backoff_base") (lit "1") empty_store)
    as (s' & Hset & Hget & Hother & _).
  exists s'. split; [exact Hset|]. split; [exact Hget|].
  rewrite (Hother (lit "max_retries")); [reflexivity|].
  intros Heq. vm_compute in Heq. discriminate Heq.
Defined.

Lemma mapped_key (h k : str) :
  Config.KEY_MAPPING !! h = Some k →
  (h, k) ∈ [ (lit "max-retries", lit "max_retries");
             (lit "backoff-base", lit "backoff_base");
             (lit "worker-poll-interval", lit "worker_poll_interval");
             (lit "db-path", lit "db_path") ].
Proof. unfold Config.KEY_MAPPING. apply elem_of_list_to_map_2. Qed.

(** X3. [normalize_config_key] is idempotent, and what it returns is never
    one of the hyphen forms: it is a fixed point of the mapping. *)
Theorem normalize_config_key_idempotent (key : str) :
  Config.normalize_config_key (Config.normalize_config_key key) =
    Config.normalize_config_key key ∧
  Config.KEY_MAPPING !! Config.normalize_config_key key = None.
Proof.
  destruct (Config.KEY_MAPPING !! key) as [k|] eqn:Hkey.
  - destruct (hyphen_key _ _ Hkey) as (-> & Hk & _). split; [done|].
    apply mapped_key in Hkey.
    repeat (apply elem_of_cons in Hkey as [[= -> ->]|Hkey]; [by vm_compute|]).
    by apply elem_of_nil in Hkey.
  - assert (Config.normalize_config_key key = key) as Hfixed
      by (unfold Config.normalize_config_key; by rewrite Hkey).
    rewrite !Hfixed. by split.
Qed.

(** X4. [config.get_config] never reads an entry stored under a hyphen
    form: writing one with [Store.set_config] changes no value that
    [get_config] returns, for any key. *)
Theorem hyphen_entry_is_never_read (h k value key : str) (s : store) :
  Config.KEY_MAPPING !! h = Some k →
  ∃ s', Store.set_config h value s = Ok s' ∧
        Config.get_config s' key = Config.get_config s key.
Proof.
  intros Hh. eexists. split; [reflexivity|].
  unfold Config.get_config, Store.get_config. simpl.
  destruct (normalize_config_key_idempotent key) as [_ Hnone].
  rewrite lookup_insert_ne; [done|].
  intros Heq. rewrite <- Heq in Hnone. congruence.
Qed.

Lemma hyphen_entry_is_never_read_witness :
  ∃ s', Store.set_config (lit "max-retries") (lit "9") empty_store = Ok s' ∧
        Config.get_config s' (lit "max-retries") = Some (lit "3").
Proof.
  destruct (hyphen_entry_is_never_read (lit "max-retries") (lit "max_retries")
              (lit "9") (lit "max-retries") empty_store
              ltac:(vm_compute; reflexivity)) as (s' & Hset & Hget).
  exists s'. split; [exact Hset|]. rewrite Hget. vm_compute. reflexivity.
Defined.

(** ** The commands *)

Lemma valid_key_fixed (key : str) :
  key ∈ Cli.valid_keys → Config.normalize_config_key key = key.
Proof.
  intros Hkey. unfold Cli.valid_keys in Hkey.
  repeat (apply elem_of_cons in Hkey as [->|Hkey]; [by vm_compute|]).
  by apply elem_of_nil in Hkey.
Qed.

(** X5. [config set] accepts a key exactly when its normal form is one of
    the four valid keys, and then writes the value under the normal form:
    [config get] of the same key, in hyphen or underscore form, prints the
    value, and no entry outside the valid keys is ever written.  For any
    other key the command exits with status 1 and writes nothing. *)
Theorem cli_config_set_then_get (key value : str) (s : store) :
  (Config.normalize_config_key key ∈ Cli.valid_keys →
   ∃ s', Cli.config_set key value s = Cli.Done s' ∧
         Cli.config_get key s' = Some value ∧
         (∀ other, Config.normalize_config_key other =
                     Config.normalize_config_key key →
                   Cli.config_get other s' = Some value) ∧
         (∀ k, k ∉ Cli.valid_keys → config s' !! k = config s !! k) ∧
         jobs s' = jobs s) ∧
  (Config.normalize_config_key key ∉ Cli.valid_keys →
   Cli.config_set key value s = Cli.Exit 1).
Proof.
  split.
  - intros Hvalid. unfold Cli.config_set.
    rewrite bool_decide_eq_false_2 by (intros Hnot; by apply Hnot).
    eexists. split; [reflexivity|].
    assert (∀ other, Config.normalize_config_key other =
                       Config.normalize_config_key key →
                     Cli.config_get other
                       {| jobs := jobs s;
                          config := <[Config.normalize_config_key key := value]>
                                      (config s) |} = Some value) as Hget.
    { intros other Hother. unfold Cli.config_get, Config.get_config.
      rewrite (proj1 (normalize_config_key_idempotent other)), Hother.
      unfold Store.get_config. simpl. by rewrite lookup_insert_eq. }
    split; [by apply Hget|]. split; [exact Hget|].
    split; [|done].
    intros k Hk. simpl. rewrite lookup_insert_ne; [done|].
    intros Heq. apply Hk. by rewrite <- Heq.
  - intros Hinvalid. unfold Cli.config_set.
    by rewrite bool_decide_eq_true_2.
Qed.

Lemma cli_config_set_then_get_witness :
  ∃ s', Cli.config_set (lit "max-retries") (lit "5") empty_store = Cli.Done s' ∧
        Cli.config_get (lit "max-retries") s' = Some (lit "5") ∧
        Cli.config_get (lit "max_retries") s' = Some (lit "5").
Proof.
  destruct (proj1 (cli_config_set_then_get (lit "max-retries") (lit "5")
                     empty_store))
    as (s' & Hset & Hget & Hother & _).
  - vm_compute. do 4 (try (left; reflexivity); right). 
  - exists s'. split; [exact Hset|]. split; [exact Hget|].
    apply Hother. vm_compute. reflexivity.
Defined.

(** X6. [dlq retry] ends with status 1, and writes nothing, exactly when
    the job is missing or not [dead]; on a [dead] job it is done and the
    job is [pending] with [attempts = 0]; the [ValueError] of the store is
    never left uncaught. *)
Theorem cli_dlq_retry_outcome (now job_id : str) (retries : option Z)
    (s : store) :
  ((∀ r, jobs s !! job_id = Some r → state r ≠ dead) →
   Cli.dlq_retry now job_id retries s = Cli.Exit 1) ∧
  (∀ r, jobs s !! job_id = Some r → state r = dead →
        ∃ s' r', Cli.dlq_retry now job_id retries s = Cli.Done s' ∧
                 jobs s' !! job_id = Some r' ∧
                 state r' = pending ∧ attempts r' = 0%N) ∧
  (∀ e, Cli.dlq_retry now job_id retries s ≠ Cli.Uncaught e).
Proof.
  unfold Cli.dlq_retry.
  destruct (jobs s !! job_id) as [row|] eqn:Hrow.
  - destruct (decide (state row = dead)) as [Hdead|Hlive].
    + rewrite (retry_job_row _ _ _ _ row Hrow Hdead).
      split; [intros Hnot; by destruct (Hnot row eq_refl)|].
      split; [|done].
      intros r [= <-] _. eexists _, _. split; [done|].
      simpl. split; [apply lookup_insert_eq|done].
    + unfold Store.retry_job. rewrite Hrow.
      rewrite bool_decide_eq_true_2 by done.
      split; [done|]. split; [|done].
      intros r [= <-] Hdead. done.
  - unfold Store.retry_job. rewrite Hrow. by repeat split.
Qed.

Lemma cli_dlq_retry_outcome_witness :
  Cli.dlq_retry t2 (lit "j1") None
    (one_job (lit "j1") (sample_job completed 1 3 (Some t0) (Some t1) None))
  = Cli.Exit 1.
Proof.
  apply (cli_dlq_retry_outcome t2 (lit "j1") None
           (one_job (lit "j1")
              (sample_job completed 1 3 (Some t0) (Some t1) None))).
  intros r Hr. vm_compute in Hr. injection Hr as <-. discriminate.
Defined.

(** X7. [enqueue] without a JSON argument.  With no command, or an empty
    one, it exits with status 1.  Otherwise the job is stored under the
    given id, or under the fresh uuid when the id is missing or empty, as a
    [pending] row with the given priority and with [next_run_at] the
    [--run-at] text (null when that is missing or empty).  Its
    [max_retries] is the [--max-retries] value when there is one, and then
    the configuration is not read; without it, it is [int] of the
    configured [max_retries].  An id that exists, and a configured value
    that [int] rejects, end the command with the exception uncaught and
    nothing stored. *)
Theorem cli_enqueue_stores (py_int : str → result Z) (now fresh : str)
    (c : N) (command : str) (id : option str) (max_retries : option Z)
    (run_at : option str) (priority : Z) (s : store) :
  let chosen := match id with Some (x :: given) => x :: given | _ => fresh end in
  let next := match run_at with
              | Some (x :: given) => Some (x :: given)
              | _ => None
              end in
  Cli.enqueue py_int now fresh None id max_retries run_at priority s = Cli.Exit 1 ∧
  Cli.enqueue py_int now fresh (Some []) id max_retries run_at priority s
    = Cli.Exit 1 ∧
  (∀ m,
     max_retries = Some m ∨
     (max_retries = None ∧
      ∃ x v, Config.get_config s (lit "max_retries") = Some (x :: v) ∧
             py_int (x :: v) = Ok m) →
     (jobs s !! chosen = None →
      ∃ s', Cli.enqueue py_int now fresh (Some (c :: command)) id max_retries
              run_at priority s = Cli.Done s' ∧
            Store.get_job chosen s' =
              Some {| command := c :: command; state := pending;
                      attempts := 0; max_retries := m; created_at := now;
                      updated_at := now; started_at := None;
                      finished_at := None; result_code := None;
                      last_error := None; next_run_at := next;
                      stdout := None; stderr := None;
                      priority := priority |}) ∧
     (is_Some (jobs s !! chosen) →
      Cli.enqueue py_int now fresh (Some (c :: command)) id max_retries run_at
        priority s =
      Cli.Uncaught (IntegrityError (lit "UNIQUE constraint failed: jobs.id")))) ∧
  (∀ x v e,
     max_retries = None →
     Config.get_config s (lit "max_retries") = Some (x :: v) →
     py_int (x :: v) = Raise e →
     Cli.enqueue py_int now fresh (Some (c :: command)) id max_retries run_at
       priority s = Cli.Uncaught e).
Proof.
  intros chosen next. split; [done|]. split; [done|]. split.
  - intros m Hm.
    assert (Cli.enqueue py_int now fresh (Some (c :: command)) id max_retries
              run_at priority s =
            Cli.finish
              (Store.enqueue_job now
                 {| jd_id := chosen; jd_command := c :: command;
                    jd_max_retries := Some m; jd_next_run_at := next;
                    jd_priority := Some priority |} s)) as ->.
    { unfold Cli.enqueue.
      destruct Hm as [->|(-> & x & v & -> & ->)]; reflexivity. }
    unfold Store.enqueue_job. simpl. split.
    + intros Hfree. rewrite Hfree. eexists. split; [reflexivity|].
      unfold Store.get_job. simpl. apply lookup_insert_eq.
    + intros [r Hr]. by rewrite Hr.
  - intros x v e -> Hconfig Hint. unfold Cli.enqueue.
    by rewrite Hconfig, Hint.
Qed.

Lemma cli_enqueue_stores_witness :
  ∃ s', Cli.enqueue digits_int t0 (lit "uuid-1") (Some (lit "echo hi"))
          (Some []) None None 0 empty_store = Cli.Done s' ∧
        max_retries <$> Store.get_job (lit "uuid-1") s' = Some 3.
Proof.
  destruct (proj1 (proj1 (proj2 (proj2 (cli_enqueue_stores digits_int t0
              (lit "uuid-1") 101%N (lit "cho hi") (Some []) None None 0
              empty_store))) 3
              ltac:(right; split; [reflexivity|];
                    exists 51%N, []; split; vm_compute; reflexivity))
              ltac:(reflexivity))
    as (s' & Hrun & Hget).
  exists s'. split; [exact Hrun|]. rewrite Hget. reflexivity.
Defined.

(** ** What the store keeps through every call *)

Lemma run_cons (isoformat : datetime → str) (o : Store.op)
    (ops : list Store.op) (s : store) :
  Store.run isoformat (o :: ops) s =
  Store.run isoformat ops (Store.step isoformat o s).
Proof. done. Qed.

Lemma row_lives_on_step (isoformat : datetime → str) (o : Store.op)
    (s : store) (job_id : str) (r : job) :
  jobs s !! job_id = Some r →
  ∃ r', jobs (Store.step isoformat o s) !! job_id = Some r' ∧
        command r' = command r ∧ created_at r' = created_at r ∧
        priority r' = priority r ∧
        (¬ replays o job_id → max_retries r' = max_retries r) ∧
        (r' ≠ r → op_now o = Some (updated_at r')).
Proof.
  intros Hr.
  destruct (step_row_kept isoformat o s job_id r Hr) as [r' Hr'].
  exists r'. split; [done|].
  pose proof (step_row_change _ _ _ _ _ Hr') as Hchange.
  rewrite Hr in Hchange.
  inversion Hchange; subst; simpl; repeat split; done.
Qed.

(** X8. No call of the store deletes a row or changes its [command],
    [created_at] or [priority]: a job that exists keeps them through any
    sequence of calls.  One call changes [max_retries] only if it is a
    [retry_job] of that job, and whenever it changes the row at all,
    [updated_at] becomes the clock reading of that call. *)
Theorem row_lives_on (isoformat : datetime → str) (s : store)
    (job_id : str) (r : job) :
  jobs s !! job_id = Some r →
  (∀ ops, ∃ r', jobs (Store.run isoformat ops s) !! job_id = Some r' ∧
                command r' = command r ∧ created_at r' = created_at r ∧
                priority r' = priority r) ∧
  (∀ o, ∃ r', jobs (Store.step isoformat o s) !! job_id = Some r' ∧
              (¬ replays o job_id → max_retries r' = max_retries r) ∧
              (r' ≠ r → op_now o = Some (updated_at r'))).
Proof.
  intros Hr. split.
  - intros ops. revert s r Hr.
    induction ops as [|o rest IH]; intros s r Hr; [by exists r|].
    destruct (row_lives_on_step isoformat o s job_id r Hr)
      as (r1 & Hr1 & Hcommand & Hcreated & Hpriority & _).
    destruct (IH _ _ Hr1) as (r' & Hr' & Hc & Ht & Hp).
    exists r'. rewrite run_cons. split; [done|]. split; [congruence|].
    split; congruence.
  - intros o.
    destruct (row_lives_on_step isoformat o s job_id r Hr)
      as (r' & Hr' & _ & _ & _ & Hretries & Hupdated).
    by exists r'.
Qed.

Lemma row_lives_on_witness :
  ∃ r', jobs (Store.run decimal_stamp
                [ Store.ClaimJob t1;
                  Store.MarkJobCompleted t2 (lit "low") 0 None None ]
                two_priorities) !! lit "low" = Some r' ∧
        command r' = lit "echo low" ∧ created_at r' = t0 ∧ priority r' = 0.
Proof.
  apply (proj1 (row_lives_on decimal_stamp two_priorities (lit "low") low_job
                  ltac:(vm_compute; reflexivity))).
Defined.

Lemma row_consistent_step (isoformat : datetime → str) (o : Store.op)
    (s : store) :
  store_consistent s → store_consistent (Store.step isoformat o s).
Proof.
  intros Hs job_id r' Hr'.
  pose proof (step_row_change _ _ _ _ _ Hr') as Hchange.
  destruct (jobs s !! job_id) as [r|] eqn:Hr.
  - pose proof (Hs job_id r Hr) as (Hnot & Hterminal & Hprocessing).
    inversion Hchange; subst; try done; unfold row_consistent; simpl;
      (split; [done|]); (split; [intros [?|?]; try done; by split|]);
      try done.
    intros _. split; [done|lia].
  - inversion Hchange; subst. unfold row_consistent. simpl.
    split; [done|]. split; [by intros [?|?]|done].
Qed.

(** X9. Every call of the store keeps three facts about each row: its
    state is never [failed]; when it is [completed] or [dead], its
    [finished_at] and [result_code] are set; when it is [processing], its
    [started_at] is set and [attempts] is at least 1. *)
Theorem store_stays_consistent (isoformat : datetime → str)
    (ops : list Store.op) (s : store) :
  store_consistent s → store_consistent (Store.run isoformat ops s).
Proof.
  revert s. induction ops as [|o rest IH]; intros s Hs; [done|].
  rewrite run_cons. apply IH. by apply row_consistent_step.
Qed.

Lemma store_stays_consistent_witness :
  ∃ r, jobs (Store.run decimal_stamp sample_history empty_store) !! lit "j1"
         = Some r ∧
       state r = processing ∧ is_Some (started_at r) ∧ (0 < attempts r)%N.
Proof.
  eexists. split; [vm_compute; reflexivity|]. split; [reflexivity|].
  apply (store_stays_consistent decimal_stamp sample_history empty_store
           ltac:(intros job_id r Hr; vm_compute in Hr; discriminate Hr)
           (lit "j1") _ ltac:(vm_compute; reflexivity)).
  reflexivity.
Defined.

(** ** A claimed job is held *)

Lemma held_step (isoformat : datetime → str) (o : Store.op) (s : store)
    (job_id : str) :
  (∃ r, jobs s !! job_id = Some r ∧ state r ≠ pending ∧ state r ≠ dead) →
  ¬ fails o job_id →
  ∃ r', jobs (Store.step isoformat o s) !! job_id = Some r' ∧
        state r' ≠ pending ∧ state r' ≠ dead.
Proof.
  intros (r & Hr & Hnp & Hnd) Hfails.
  destruct (step_row_kept isoformat o s job_id r Hr) as [r' Hr'].
  exists r'. split; [done|].
  pose proof (step_row_change _ _ _ _ _ Hr') as Hchange.
  rewrite Hr in Hchange.
  inversion Hchange; subst; simpl in *; try done.
Qed.

(** X10. A successful [claim_job] changes the claimed row only, and the job
    it returns is not returned by any later [claim_job], at any time, as
    long as no [mark_job_failed] is called for it in between: two workers
    are never handed the same job. *)
Theorem claimed_job_is_held (isoformat : datetime → str) (now : str)
    (s : store) (job_id : str) (r : job) (s1 : store) (ops : list Store.op) :
  Store.claim_job now s = (Some (job_id, r), s1) →
  Forall (λ o, ¬ fails o job_id) ops →
  (∀ other, other ≠ job_id → jobs s1 !! other = jobs s !! other) ∧
  config s1 = config s ∧
  ∀ later r2 s2,
    Store.claim_job later (Store.run isoformat ops s1) ≠ (Some (job_id, r2), s2).
Proof.
  intros Hclaim Hops.
  destruct (claim_job_some _ _ _ _ _ Hclaim) as (r0 & _ & Hr0 & _ & -> & ->).
  split; [intros other Hne; simpl; by rewrite lookup_insert_ne|].
  split; [done|].
  assert (∃ r', jobs (with_jobs (<[job_id := Store.claim_set now r0]> (jobs s)) s)
                  !! job_id = Some r' ∧ state r' ≠ pending ∧ state r' ≠ dead)
    as Hheld.
  { eexists. split; [apply lookup_insert_eq|done]. }
  revert Hheld.
  generalize (with_jobs (<[job_id := Store.claim_set now r0]> (jobs s)) s).
  induction Hops as [|o rest Ho Hrest IH]; intros s1 Hheld later r2 s2 Hagain.
  - destruct Hheld as (r' & Hr' & Hnp & _).
    destruct (claim_job_some _ _ _ _ _ Hagain) as (r3 & _ & Hr3 & Hcl & _).
    simpl in Hr3. apply claimable_pending in Hcl. congruence.
  - rewrite run_cons in Hagain.
    apply (IH _ (held_step isoformat o s1 job_id Hheld Ho) later r2 s2 Hagain).
Qed.

Lemma claimed_job_is_held_witness :
  fst <$> (Store.claim_job t2
             (Store.run decimal_stamp
                [ Store.MarkJobCompleted t2 (lit "high") 0 None None ]
                (Store.claim_job t1 two_priorities).2)).1
  = Some (lit "low").
Proof.
  destruct (Store.claim_job t2 _) as [[[k rk]|] s2] eqn:Hclaim.
  - destruct (decide (k = lit "high")) as [->|Hne].
    + exfalso.
      apply (proj2 (proj2 (claimed_job_is_held decimal_stamp t1 two_priorities
                (lit "high") (Store.claim_set t1 high_job)
                (Store.claim_job t1 two_priorities).2
                [ Store.MarkJobCompleted t2 (lit "high") 0 None None ]
                ltac:(vm_compute; reflexivity)
                ltac:(constructor; [|constructor]; simpl;
                      intros Hfalse; exact Hfalse)))
             t2 rk s2 Hclaim).
    + vm_compute in Hclaim. injection Hclaim as <- _ _. reflexivity.
  - vm_compute in Hclaim. discriminate Hclaim.
Defined.

(** ** The worker's record of a run *)

Lemma head_or_none_nonempty (limit : Z) (text : str) :
  head_or_none limit (match text with [] => None | _ => Some text end) =
  head_or_none limit (Some text).
Proof. by destruct text. Qed.

(** X11. When the command exits with 0, [_execute_job] marks the job
    [completed] with [result_code = 0], [finished_at] set and the captured
    streams stored (head of 10,000 characters, null when empty); it does
    not read the configuration, so this holds whatever the stored
    [backoff_base] is. *)
Theorem worker_records_success (isoformat : datetime → str)
    (py_int : str → result Z) (now : str) (clock : datetime)
    (out err : str) (job_id : str) (claimed r : job) (s : store) :
  jobs s !! job_id = Some r →
  ∃ s' r',
    Worker._execute_job isoformat py_int now clock (0, out, err)
      (job_id, claimed) s = Ok s' ∧
    jobs s' !! job_id = Some r' ∧
    state r' = completed ∧ result_code r' = Some 0 ∧
    finished_at r' = Some now ∧ updated_at r' = now ∧
    stdout r' = head_or_none 10000 (Some out) ∧
    stderr r' = head_or_none 10000 (Some err) ∧
    attempts r' = attempts r ∧ last_error r' = last_error r.
Proof.
  intros Hr. unfold Worker._execute_job. simpl.
  rewrite (mark_job_completed_row _ _ _ _ _ _ r Hr).
  eexists _, _. split; [reflexivity|]. simpl.
  split; [apply lookup_insert_eq|]. simpl.
  rewrite head_or_none_nonempty. by repeat split.
Qed.

Lemma worker_records_success_witness :
  ∃ s' r',
    Worker._execute_job decimal_stamp (λ _, Raise (ValueError []))
      t2 0 (0, lit "ok", []) (lit "j1", sample_job processing 1 3 (Some t1) None None)
      (one_job (lit "j1") (sample_job processing 1 3 (Some t1) None None))
    = Ok s' ∧
    jobs s' !! lit "j1" = Some r' ∧ state r' = completed ∧
    stdout r' = Some (lit "ok") ∧ stderr r' = None.
Proof.
  destruct (worker_records_success decimal_stamp (λ _, Raise (ValueError []))
              t2 0 (lit "ok") [] (lit "j1")
              (sample_job processing 1 3 (Some t1) None None)
              (sample_job processing 1 3 (Some t1) None None)
              (one_job (lit "j1") (sample_job processing 1 3 (Some t1) None None))
              ltac:(vm_compute; reflexivity))
    as (s' & r' & Hrun & Hrow & Hstate & _ & _ & _ & Hout & Herr & _).
  exists s', r'. repeat split; assumption.
Defined.

(** X12. When the command fails, the stored [backoff_base] parses and the
    job is out of tries or the time of its next run is in the range of
    [datetime], [_execute_job] records the exit code, the captured streams
    and, as [last_error], the head of 2,000 characters of stderr, or of
    stdout when stderr is empty, or of "Command failed with exit code N"
    when both are empty.  The base it uses is the configured one, or 2 when
    that is not positive; the job becomes [dead] when its [attempts] have
    reached its [max_retries] and otherwise [pending] with [next_run_at]
    that far in the future. *)
Theorem worker_records_failure (isoformat : datetime → str)
    (py_int : str → result Z) (now : str) (clock : datetime)
    (exit_code : Z) (out err : str) (job_id : str) (r : job) (s : store)
    (configured : Z) :
  exit_code ≠ 0 →
  Config.get_config_int py_int s (lit "backoff_base") = Ok configured →
  jobs s !! job_id = Some r →
  max_retries r ≤ Z.of_N (attempts r) ∨
    in_range clock
      ((if configured <=? 0 then 2 else configured) ^ Z.of_N (attempts r)) →
  let base := if configured <=? 0 then 2 else configured in
  ∃ s' r',
    Worker._execute_job isoformat py_int now clock (exit_code, out, err)
      (job_id, r) s = Ok s' ∧
    jobs s' !! job_id = Some r' ∧
    result_code r' = Some exit_code ∧
    last_error r' = head_or_none 2000 (Some (failure_message exit_code out err)) ∧
    stdout r' = head_or_none 10000 (Some out) ∧
    stderr r' = head_or_none 10000 (Some err) ∧
    0 < base ∧
    ((max_retries r ≤ Z.of_N (attempts r) ∧ state r' = dead) ∨
     (Z.of_N (attempts r) < max_retries r ∧ state r' = pending ∧
      next_run_at r' =
        Some (isoformat
                (clock + timedelta_seconds (base ^ Z.of_N (attempts r)))))).
Proof.
  intros Hcode Hconfig Hr Hfit base.
  assert (0 < base) as Hbase by (unfold base; case_match; lia).
  unfold Worker._execute_job, Worker.read_backoff_base. simpl.
  rewrite (proj2 (Z.eqb_neq _ _) Hcode). rewrite Hconfig. simpl.
  fold base. fold base in Hfit.
  destruct (Z_le_gt_dec (max_retries r) (Z.of_N (attempts r))) as [Hge|Hlt].
  - rewrite (mark_job_failed_dead_row _ _ _ _ _ _ _ _ _ _ _ _ r Hr Hge).
    eexists _, _. split; [reflexivity|]. simpl.
    split; [apply lookup_insert_eq|]. simpl.
    split; [done|]. split; [by destruct err, out|].
    split; [done|]. split; [by destruct err|]. split; [done|by left].
  - destruct Hfit as [Hge|Hin]; [lia|].
    rewrite (mark_job_failed_retry_row _ _ _ _ _ _ _ _ _ _ _ _ r Hr)
      by (lia || done).
    eexists _, _. split; [reflexivity|]. simpl.
    split; [apply lookup_insert_eq|]. simpl.
    split; [done|]. split; [by destruct err, out|].
    split; [done|]. split; [by destruct err|]. split; [done|].
    right. split; [lia|done].
Qed.

Lemma worker_records_failure_witness :
  ∃ s' r',
    Worker._execute_job decimal_stamp digits_int t2 0 (2, [], [])
      (lit "j1", sample_job processing 1 3 (Some t1) None None)
      (one_job (lit "j1") (sample_job processing 1 3 (Some t1) None None))
    = Ok s' ∧
    jobs s' !! lit "j1" = Some r' ∧
    last_error r' = Some (lit "Command failed with exit code 2").
Proof.
  destruct (worker_records_failure decimal_stamp digits_int t2 0 2 [] []
              (lit "j1") (sample_job processing 1 3 (Some t1) None None)
              (one_job (lit "j1") (sample_job processing 1 3 (Some t1) None None))
              2 ltac:(lia) ltac:(vm_compute; reflexivity)
              ltac:(vm_compute; reflexivity)
              ltac:(right; vm_compute; intuition discriminate))
    as (s' & r' & Hrun & Hrow & _ & Herror & _).
  exists s', r'. split; [exact Hrun|]. split; [exact Hrow|].
  rewrite Herror. vm_compute. reflexivity.
Defined.

(** X13. When the command fails and the stored [backoff_base] is a text
    that [int] rejects, [_execute_job] raises that error from both its
    attempts to record the failure and writes nothing: the turn of the
    worker leaves the job [processing], as the claim left it, and no later
    [claim_job] returns it. *)
Theorem worker_strands_job_on_bad_backoff (isoformat : datetime → str)
    (py_int : str → result Z) (claim_now now : str) (clock : datetime)
    (exit_code : Z) (out err : str) (s : store) (job_id : str)
    (claimed : job) (s1 : store) (e : exn) :
  Store.claim_job claim_now s = (Some (job_id, claimed), s1) →
  exit_code ≠ 0 →
  Config.get_config_int py_int s (lit "backoff_base") = Raise e →
  Worker._execute_job isoformat py_int now clock (exit_code, out, err)
    (job_id, claimed) s1 = Raise e ∧
  Worker.run_once isoformat py_int claim_now now clock (exit_code, out, err) s
    = s1 ∧
  jobs s1 !! job_id = Some claimed ∧ state claimed = processing ∧
  ∀ later r2 s2, Store.claim_job later s1 ≠ (Some (job_id, r2), s2).
Proof.
  intros Hclaim Hcode Hconfig.
  assert (Worker._execute_job isoformat py_int now clock (exit_code, out, err)
            (job_id, claimed) s1 = Raise e) as Hrun.
  { destruct (claim_job_some _ _ _ _ _ Hclaim) as (r0 & _ & _ & _ & _ & ->).
    unfold Worker._execute_job, Worker.read_backoff_base. simpl.
    rewrite (proj2 (Z.eqb_neq _ _) Hcode).
    assert (Config.get_config_int py_int
              (with_jobs (<[job_id := claimed]> (jobs s)) s)
              (lit "backoff_base") = Raise e) as -> by exact Hconfig.
    reflexivity. }
  split; [exact Hrun|].
  split; [unfold Worker.run_once; by rewrite Hclaim, Hrun|].
  destruct (claim_job_some _ _ _ _ _ Hclaim) as (r0 & _ & Hr0 & _ & -> & ->).
  split; [apply lookup_insert_eq|]. split; [done|].
  intros later r2 s2 Hagain.
  destruct (claim_job_some _ _ _ _ _ Hagain) as (r3 & _ & Hr3 & Hcl & _).
  simpl in Hr3. rewrite lookup_insert_eq in Hr3. injection Hr3 as <-.
  apply claimable_pending in Hcl. done.
Qed.

Lemma worker_strands_job_on_bad_backoff_witness :
  ∃ r, jobs (Worker.run_once decimal_stamp digits_int t1 t2 0 (1, [], [])
               bad_backoff_store) !! lit "j1" = Some r ∧
       state r = processing.
Proof.
  destruct (worker_strands_job_on_bad_backoff decimal_stamp digits_int t1 t2 0
              1 [] [] bad_backoff_store (lit "j1")
              (Store.claim_set t1 (sample_job pending 0 3 None None None))
              (Store.claim_job t1 bad_backoff_store).2
              (ValueError (lit "invalid literal for int() with base 10"))
              ltac:(vm_compute; reflexivity) ltac:(lia)
              ltac:(vm_compute; reflexivity))
    as (_ & Hturn & Hrow & Hstate & _).
  assert (Worker.run_once decimal_stamp digits_int t1 t2 0 (1, [], [])
            bad_backoff_store = (Store.claim_job t1 bad_backoff_store).2)
    as -> by exact Hturn.
  eexists. split; [exact Hrow|exact Hstate].
Defined.

(** X21. When the command fails, the job has tries left and the delay
    [backoff_base ^ attempts] or the time of the next run is out of the
    range of [timedelta] and [datetime], [_execute_job] raises
    [OverflowError] from both its attempts to record the failure and
    writes nothing: the turn of the worker leaves the job [processing], as
    the claim left it, and no later [claim_job] returns it. *)
Theorem worker_strands_job_on_overflow (isoformat : datetime → str)
    (py_int : str → result Z) (claim_now now : str) (clock : datetime)
    (exit_code : Z) (out err : str) (s : store) (job_id : str)
    (claimed : job) (s1 : store) (configured : Z) :
  Store.claim_job claim_now s = (Some (job_id, claimed), s1) →
  exit_code ≠ 0 →
  Config.get_config_int py_int s (lit "backoff_base") = Ok configured →
  Z.of_N (attempts claimed) < max_retries claimed →
  ¬ in_range clock
      ((if configured <=? 0 then 2 else configured) ^
       Z.of_N (attempts claimed)) →
  (∃ msg,
     Worker._execute_job isoformat py_int now clock (exit_code, out, err)
       (job_id, claimed) s1 = Raise (OverflowError msg)) ∧
  Worker.run_once isoformat py_int claim_now now clock (exit_code, out, err) s
    = s1 ∧
  jobs s1 !! job_id = Some claimed ∧ state claimed = processing ∧
  ∀ later r2 s2, Store.claim_job later s1 ≠ (Some (job_id, r2), s2).
Proof.
  intros Hclaim Hcode Hconfig Hlt Hout.
  assert (∃ msg,
            Worker._execute_job isoformat py_int now clock
              (exit_code, out, err) (job_id, claimed) s1 =
            Raise (OverflowError msg)) as [msg Hrun].
  { destruct (claim_job_some _ _ _ _ _ Hclaim) as (r0 & _ & _ & _ & _ & ->).
    assert (Worker.read_backoff_base py_int
              (with_jobs (<[job_id := claimed]> (jobs s)) s) =
            Ok (if configured <=? 0 then 2 else configured)) as Hbase.
    { unfold Worker.read_backoff_base.
      assert (Config.get_config_int py_int
                (with_jobs (<[job_id := claimed]> (jobs s)) s)
                (lit "backoff_base") = Ok configured) as -> by exact Hconfig.
      reflexivity. }
    destruct (execute_job_failure isoformat py_int now clock exit_code out
                err job_id claimed _ _ Hcode Hbase) as [message ->].
    destruct (mark_job_failed_overflow isoformat now clock job_id exit_code
                message (max_retries claimed)
                (if configured <=? 0 then 2 else configured)
                (attempts claimed) (Some out)
                (match err with [] => None | _ => Some err end)
                (with_jobs (<[job_id := claimed]> (jobs s)) s) Hlt Hout)
      as (msg & _ & Hraise).
    by exists msg. }
  split; [by exists msg|].
  split; [unfold Worker.run_once; by rewrite Hclaim, Hrun|].
  destruct (claim_job_some _ _ _ _ _ Hclaim) as (r0 & _ & Hr0 & _ & -> & ->).
  split; [apply lookup_insert_eq|]. split; [done|].
  intros later r2 s2 Hagain.
  destruct (claim_job_some _ _ _ _ _ Hagain) as (r3 & _ & Hr3 & Hcl & _).
  simpl in Hr3. rewrite lookup_insert_eq in Hr3. injection Hr3 as <-.
  apply claimable_pending in Hcl. done.
Qed.

Lemma worker_strands_job_on_overflow_witness :
  ∃ r, jobs (Worker.run_once decimal_stamp digits_int t1 t2 0 (1, [], [])
               huge_backoff_store) !! lit "j1" = Some r ∧
       state r = processing.
Proof.
  destruct (worker_strands_job_on_overflow decimal_stamp digits_int t1 t2 0
              1 [] [] huge_backoff_store (lit "j1")
              (Store.claim_set t1 (sample_job pending 0 3 None None None))
              (Store.claim_job t1 huge_backoff_store).2
              1000000000000
              ltac:(vm_compute; reflexivity) ltac:(lia)
              ltac:(vm_compute; reflexivity)
              ltac:(vm_compute; reflexivity)
              ltac:(vm_compute; intros (_ & _ & Hmax); by apply Hmax))
    as (_ & Hturn & Hrow & Hstate & _).
  assert (Worker.run_once decimal_stamp digits_int t1 t2 0 (1, [], [])
            huge_backoff_store = (Store.claim_job t1 huge_backoff_store).2)
    as -> by exact Hturn.
  eexists. split; [exact Hrow|exact Hstate].
Defined.

(** ** How often a job is run *)

Lemma execute_job_effect isoformat py_int now clock ran (job_id : str)
    (claimed : job) (s : store) (other : str) (r' : job) :
  jobs s !! job_id = Some claimed →
  jobs (Store.committed
          (Worker._execute_job isoformat py_int now clock ran
             (job_id, claimed) s) s) !! other = Some r' →
  jobs s !! other = Some r' ∨
  (attempts r' = attempts claimed ∧ max_retries r' = max_retries claimed ∧
   (state r' = completed ∨
    (state r' = dead ∧ max_retries claimed ≤ Z.of_N (attempts claimed)) ∨
    (state r' = pending ∧ Z.of_N (attempts claimed) < max_retries claimed))).
Proof.
  intros Hclaimed. unfold Worker._execute_job. simpl.
  destruct (Executor.success (Executor.execute_job_command ran)).
  - rewrite (mark_job_completed_row _ _ _ _ _ _ claimed Hclaimed). simpl.
    intros Hr'.
    apply lookup_insert_Some in Hr' as [[_ <-]|[_ Hr']]; [right|by left].
    simpl. split; [done|]. split; [done|by left].
  - destruct (Worker.read_backoff_base py_int s) as [base|e]; simpl;
      [|by left].
    match goal with
    | |- context [Store.mark_job_failed ?f ?n ?c ?j ?x ?e ?m ?b ?a ?o ?d s] =>
        destruct (Store.mark_job_failed f n c j x e m b a o d s)
          as [s'|raised] eqn:Hcall
    end.
    + destruct (Z_le_gt_dec (max_retries claimed)
                  (Z.of_N (attempts claimed))) as [Hge|Hlt].
      * rewrite (mark_job_failed_dead_row _ _ _ _ _ _ _ _ _ _ _ _ claimed
                   Hclaimed Hge) in Hcall.
        injection Hcall as <-. simpl. intros Hr'.
        apply lookup_insert_Some in Hr' as [[_ <-]|[_ Hr']]; [right|by left].
        simpl. split; [done|]. split; [done|]. right. by left.
      * rewrite mark_job_failed_retry_path in Hcall by lia.
        destruct (next_run clock _) as [t|e]; [|done].
        rewrite (sql_update_hit _ _ _ _ claimed Hclaimed) in Hcall by done.
        injection Hcall as <-. simpl. intros Hr'.
        apply lookup_insert_Some in Hr' as [[_ <-]|[_ Hr']]; [right|by left].
        simpl. split; [done|]. split; [done|]. right. right.
        split; [done|lia].
    + rewrite (mark_job_failed_raises_again _ _ _ _ _ _ _ _ _ _ _ _ _
                 _ _ _ _ _ Hcall).
      simpl. by left.
Qed.

Lemma runs_bounded_insert (s : store) (job_id : str) (r : job) :
  runs_bounded s → run_bounded r →
  runs_bounded (with_jobs (<[job_id := r]> (jobs s)) s).
Proof.
  intros Hs Hr k rk Hk. simpl in Hk.
  apply lookup_insert_Some in Hk as [[_ <-]|[_ Hk]]; [done|].
  by apply (Hs k).
Qed.

Lemma runs_bounded_natural_step isoformat py_int (e : event) (s : store) :
  runs_bounded s → runs_bounded (natural_step isoformat py_int e s).
Proof.
  intros Hs. destruct e as [now jd|claim_now now clock ran|now job_id retries
                           |key value]; simpl.
  - unfold Store.enqueue_job.
    destruct (jobs s !! jd_id jd); simpl; [done|].
    apply runs_bounded_insert; [done|]. split; simpl; [by left|done].
  - unfold Worker.run_once.
    destruct (Store.claim_job claim_now s) as [[[k rk]|] s'] eqn:Hclaim.
    + destruct (claim_job_some _ _ _ _ _ Hclaim)
        as (r0 & _ & Hr0 & Hcl & -> & ->).
      apply claimable_pending in Hcl.
      destruct (Hs k r0 Hr0) as [Hwaiting _]. specialize (Hwaiting Hcl).
      assert (run_bounded (Store.claim_set claim_now r0)) as Hclaimed.
      { split; simpl; [done|]. intros _. split; [lia|].
        destruct Hwaiting as [->|Hleft]; [by left|right; lia]. }
      pose proof (runs_bounded_insert s k _ Hs Hclaimed) as Hs'.
      intros other r' Hr'.
      apply execute_job_effect in Hr' as [Hsame|(Ha & Hm & Hstate)];
        [by apply (Hs' other)| |apply lookup_insert_eq].
      destruct Hclaimed as [_ Hrun]. specialize (Hrun ltac:(done)).
      split; intros Hst.
      * destruct Hstate as [Hc|[[Hd _]|[_ Hlt]]]; try congruence.
        right. by rewrite Ha, Hm.
      * by rewrite Ha, Hm.
    + by destruct (claim_job_none _ _ _ Hclaim) as [-> _].
  - unfold Store.retry_job.
    destruct (jobs s !! job_id) as [row|] eqn:Hrow; [|done].
    destruct (bool_decide (state row ≠ dead)); [done|].
    rewrite (sql_update_hit _ _ _ _ row Hrow) by done. simpl.
    apply runs_bounded_insert; [done|]. split; simpl; [by left|done].
  - intros k rk Hk. by apply (Hs k).
Qed.

(** X14. In normal operation (enqueueing, turns of a worker, replays and
    configuration changes) a job is never run more often than
    [max(1, max_retries)] times per enqueue or replay, and a [dead] job has
    been run exactly that often: a job is run once even with a budget of
    zero, and a worker never lets a job exceed its budget. *)
Theorem executions_are_bounded (isoformat : datetime → str)
    (py_int : str → result Z) (events : list event) (s : store) :
  runs_bounded s → budget_respected s →
  ∀ job_id r,
    jobs (natural_run isoformat py_int events s) !! job_id = Some r →
    Z.of_N (attempts r) ≤ Z.max 1 (max_retries r) ∧
    (state r = dead → Z.of_N (attempts r) = Z.max 1 (max_retries r)).
Proof.
  intros Hbounded Hbudget job_id r Hr.
  assert (runs_bounded (natural_run isoformat py_int events s)) as Hb.
  { clear Hr Hbudget. revert s Hbounded.
    induction events as [|e rest IH]; intros s Hs; [done|].
    simpl. apply IH. by apply runs_bounded_natural_step. }
  pose proof (budget_natural_run isoformat py_int events s Hbudget job_id r Hr)
    as Hdead.
  destruct (Hb job_id r Hr) as [Hwaiting Hrun].
  destruct (decide (state r = pending)) as [Hp|Hnp].
  - split; [|congruence]. destruct (Hwaiting Hp); lia.
  - destruct (Hrun Hnp) as [Hone Hmost].
    split; [lia|]. intros Hd. specialize (Hdead Hd). lia.
Qed.

Lemma executions_are_bounded_witness :
  ∃ r, jobs (natural_run decimal_stamp digits_int sample_events empty_store)
         !! lit "j1" = Some r ∧
       state r = dead ∧ Z.of_N (attempts r) = Z.max 1 (max_retries r).
Proof.
  eexists. split; [vm_compute; reflexivity|]. split; [reflexivity|].
  apply (executions_are_bounded decimal_stamp digits_int sample_events
           empty_store
           ltac:(intros k rk Hk; vm_compute in Hk; discriminate Hk)
           ltac:(intros k rk Hk; vm_compute in Hk; discriminate Hk)
           (lit "j1") _ ltac:(vm_compute; reflexivity)).
  reflexivity.
Defined.

(** ** After a replay *)

(** X15. A job replayed from the DLQ can be claimed at once: after a
    successful [retry_job], [claim_job] at any time hands out a job, and
    when no other job is [pending] it hands out the replayed one, with
    [attempts = 1]. *)
Theorem replayed_job_is_claimable (now job_id : str) (retries : option Z)
    (s : store) (r : job) :
  jobs s !! job_id = Some r → state r = dead →
  ∃ s',
    Store.retry_job now job_id retries s = Ok s' ∧
    ∀ later,
      ∃ handed claimed s2,
        Store.claim_job later s' = (Some (handed, claimed), s2) ∧
        ((∀ other r0, other ≠ job_id → jobs s !! other = Some r0 →
                      state r0 ≠ pending) →
         handed = job_id ∧ attempts claimed = 1%N ∧ state claimed = processing).
Proof.
  intros Hr Hdead. eexists. split; [by apply retry_job_row|].
  intros later.
  destruct (Store.claim_job later _) as [[[k rk]|] s2] eqn:Hclaim.
  - exists k, rk, s2. split; [done|]. intros Hothers.
    destruct (claim_job_some _ _ _ _ _ Hclaim) as (r0 & _ & Hr0 & Hcl & -> & _).
    apply claimable_pending in Hcl. simpl in Hr0.
    apply lookup_insert_Some in Hr0 as [[<- <-]|[Hne Hr0]]; [done|].
    by destruct (Hothers k r0 ltac:(done) Hr0).
  - destruct (claim_job_none _ _ _ Hclaim) as [_ Hsel].
    pose proof (select_claimable_none _ _ Hsel job_id
                  (Store.replay_set now retries r)
                  ltac:(simpl; apply lookup_insert_eq)) as Hnot.
    done.
Qed.

Lemma replayed_job_is_claimable_witness :
  ∃ s' handed claimed s2,
    Store.retry_job t1 (lit "j1") None
      (one_job (lit "j1") (sample_job dead 3 3 (Some t0) (Some t1) (Some t1)))
    = Ok s' ∧
    Store.claim_job t0 s' = (Some (handed, claimed), s2) ∧
    handed = lit "j1" ∧ attempts claimed = 1%N.
Proof.
  destruct (replayed_job_is_claimable t1 (lit "j1") None
              (one_job (lit "j1")
                 (sample_job dead 3 3 (Some t0) (Some t1) (Some t1)))
              (sample_job dead 3 3 (Some t0) (Some t1) (Some t1))
              ltac:(vm_compute; reflexivity) ltac:(reflexivity))
    as (s' & Hretry & Hclaim).
  destruct (Hclaim t0) as (handed & claimed & s2 & Hhanded & Halone).
  exists s', handed, claimed, s2. split; [exact Hretry|].
  split; [exact Hhanded|].
  destruct Halone as (Hid & Hattempts & _); [|by split].
  intros other r0 Hne Hother. exfalso.
  unfold one_job in Hother. simpl in Hother.
  rewrite lookup_singleton_ne in Hother; [discriminate Hother|].
  intros Heq. by apply Hne.
Defined.

(** ** Listing and counting *)

Lemma str_leb_total (a b : str) : str_leb a b = true ∨ str_leb b a = true.
Proof.
  rewrite !str_leb_ltb.
  destruct (str_ltb b a) eqn:Hba; [|by left].
  right. by rewrite (str_ltb_asym _ _ Hba).
Qed.

Lemma str_leb_trans (a b c : str) :
  str_leb a b = true → str_leb b c = true → str_leb a c = true.
Proof.
  rewrite !str_leb_ltb. intros Hab Hbc.
  destruct (str_ltb c a) eqn:Hca; [|done].
  destruct (str_ltb_cotrans c b a Hca) as [Hcb|Hba].
  - by rewrite Hcb in Hbc.
  - by rewrite Hba in Hab.
Qed.

#[export] Instance newer_first_total : Total Store.newer_first.
Proof.
  intros a b. unfold Store.newer_first.
  destruct (str_leb_total (created_at b.2) (created_at a.2)) as [H|H];
    rewrite H; [by left|by right].
Qed.

#[export] Instance newer_first_trans : Transitive Store.newer_first.
Proof.
  intros a b c. unfold Store.newer_first. intros Hab Hbc.
  apply Is_true_eq_true in Hab, Hbc. apply Is_true_eq_left.
  by apply (str_leb_trans _ (created_at b.2)).
Qed.

Lemma sql_limit_sublist {A : Type} (limit offset : Z) (rows : list A) :
  Store.sql_limit limit offset rows `sublist_of` rows.
Proof.
  unfold Store.sql_limit. destruct (limit <? 0).
  - apply sublist_drop.
  - etrans; [apply sublist_take|apply sublist_drop].
Qed.

Lemma sql_limit_sorted {A : Type} (R : relation A) (limit offset : Z)
    (rows : list A) :
  StronglySorted R rows → StronglySorted R (Store.sql_limit limit offset rows).
Proof.
  intros Hrows. unfold Store.sql_limit.
  assert (StronglySorted R (drop (Z.to_nat offset) rows)) as Hdrop.
  { rewrite <- (take_drop (Z.to_nat offset) rows) in Hrows.
    by apply StronglySorted_app_1_r in Hrows. }
  destruct (limit <? 0); [done|].
  rewrite <- (take_drop (Z.to_nat limit) (drop _ rows)) in Hdrop.
  by apply StronglySorted_app_1_l in Hdrop.
Qed.

Lemma list_jobs_rows (wanted : option str) (s : store) (job_id : str)
    (r : job) :
  (job_id, r) ∈
    match wanted with
    | Some (c :: name) =>
        filter (λ kr : str * job, Store.has_state (c :: name) kr.2)
          (map_to_list (jobs s))
    | _ => map_to_list (jobs s)
    end ↔
  jobs s !! job_id = Some r ∧ listed wanted r.
Proof.
  destruct wanted as [[|c name]|]; simpl.
  - rewrite elem_of_map_to_list. by split; [|intros [? _]].
  - rewrite list_elem_of_filter, elem_of_map_to_list. simpl.
    unfold Store.has_state. rewrite bool_decide_spec.
    split; intros [? ?]; by split.
  - rewrite elem_of_map_to_list. by split; [|intros [? _]].
Qed.

(** X16. [list_jobs] returns rows of the store that pass its filter (all
    rows when the state is missing or empty), newest [created_at] first and
    no job twice.  With a non-negative limit it returns at most that many;
    with a negative limit and no offset it returns every row that passes;
    and a page has [min(limit, total - offset)] rows, so that an offset at
    or past the end gives the empty list and not an error. *)
Theorem list_jobs_pages (state : option str) (limit offset : Z) (s : store) :
  (∀ job_id r, (job_id, r) ∈ Store.list_jobs state limit offset s →
               jobs s !! job_id = Some r ∧ listed state r) ∧
  StronglySorted Store.newer_first (Store.list_jobs state limit offset s) ∧
  NoDup (Store.list_jobs state limit offset s).*1 ∧
  (0 ≤ limit → Z.of_nat (length (Store.list_jobs state limit offset s)) ≤ limit) ∧
  (limit < 0 → offset ≤ 0 →
   ∀ job_id r, jobs s !! job_id = Some r → listed state r →
               (job_id, r) ∈ Store.list_jobs state limit offset s) ∧
  (0 ≤ limit → 0 ≤ offset →
   length (Store.list_jobs state limit offset s) =
   (Z.to_nat limit `min`
      (length (Store.list_jobs state (-1) 0 s) - Z.to_nat offset))%nat).
Proof.
  unfold Store.list_jobs.
  set (rows := match state with
               | Some (c :: name) =>
                   filter (λ kr : str * job, Store.has_state (c :: name) kr.2)
                     (map_to_list (jobs s))
               | _ => map_to_list (jobs s)
               end).
  assert (∀ job_id r, (job_id, r) ∈ merge_sort Store.newer_first rows ↔
                      jobs s !! job_id = Some r ∧ listed state r) as Hrows.
  { intros job_id r. rewrite merge_sort_Permutation. apply list_jobs_rows. }
  assert (NoDup (merge_sort Store.newer_first rows)) as Hnodup.
  { rewrite merge_sort_Permutation. unfold rows.
    destruct state as [[|c name]|];
      try apply NoDup_filter; apply NoDup_map_to_list. }
  split; [|split; [|split; [|split; [|split]]]].
  - intros job_id r Hin. apply Hrows.
    by apply (elem_of_sublist _ _ _ Hin), sql_limit_sublist.
  - apply sql_limit_sorted, StronglySorted_merge_sort; apply _.
  - apply NoDup_fmap_fst.
    + intros job_id r1 r2 H1 H2.
      pose proof (elem_of_sublist _ _ _ H1 (sql_limit_sublist _ _ _)) as H1'.
      pose proof (elem_of_sublist _ _ _ H2 (sql_limit_sublist _ _ _)) as H2'.
      apply Hrows in H1' as [H1' _]. apply Hrows in H2' as [H2' _].
      congruence.
    + apply (sublist_NoDup _ _ Hnodup), sql_limit_sublist.
  - intros Hlimit. unfold Store.sql_limit.
    rewrite (proj2 (Z.ltb_ge _ _) Hlimit), length_take. lia.
  - intros Hlimit Hoffset job_id r Hr Hlisted. unfold Store.sql_limit.
    rewrite (proj2 (Z.ltb_lt _ _) Hlimit).
    replace (Z.to_nat offset) with 0%nat by lia. rewrite drop_0.
    by apply Hrows.
  - intros Hlimit Hoffset. unfold Store.sql_limit.
    rewrite (proj2 (Z.ltb_ge _ _) Hlimit). simpl.
    by rewrite length_take, length_drop, drop_0.
Qed.

Lemma list_jobs_pages_witness :
  (lit "low", low_job) ∈ Store.list_jobs (Some (lit "pending")) (-1) 0
                           two_priorities ∧
  Z.of_nat (length (Store.list_jobs None 1 0 two_priorities)) ≤ 1.
Proof.
  split.
  - apply (list_jobs_pages (Some (lit "pending")) (-1) 0 two_priorities);
      [lia|lia|vm_compute; reflexivity|vm_compute; reflexivity].
  - apply (list_jobs_pages None 1 0 two_priorities). lia.
Defined.

Lemma state_name_inj (a b : job_state) : state_name a = state_name b → a = b.
Proof.
  destruct a, b; try done; intros H; vm_compute in H; discriminate H.
Qed.

Lemma count_rows_lookup (rows : list (str * job)) (st : job_state) :
  foldr Store.count_row ∅ rows !! state_name st =
  (let n := length (filter (λ kr : str * job, state kr.2 = st) rows) in
   if decide (n = 0%nat) then None else Some (Z.of_nat n)).
Proof.
  induction rows as [|[k r] rest IH]; [done|].
  cbn [foldr]. unfold Store.count_row at 1. cbn [snd].
  destruct (decide (state r = st)) as [Heq|Hne].
  - rewrite filter_cons_True by done. subst st.
    rewrite lookup_insert_eq, IH. cbn [length].
    cbv zeta. repeat case_decide; simpl; try lia; f_equal; lia.
  - rewrite filter_cons_False by done.
    rewrite lookup_insert_ne; [done|].
    intros Heq. by apply state_name_inj in Heq.
Qed.

Lemma count_rows_keys (rows : list (str * job)) (key : str) (n : Z) :
  foldr Store.count_row ∅ rows !! key = Some n →
  ∃ st, key = state_name st.
Proof.
  revert n. induction rows as [|[k r] rest IH]; intros n; [done|].
  cbn [foldr]. unfold Store.count_row at 1. cbn [snd].
  intros Hn. apply lookup_insert_Some in Hn as [[<- _]|[_ Hn]]; [by eexists|].
  by apply (IH n).
Qed.

Lemma states_partition (rows : list (str * job)) :
  (length (filter (λ kr : str * job, state kr.2 = pending) rows) +
   length (filter (λ kr : str * job, state kr.2 = processing) rows) +
   length (filter (λ kr : str * job, state kr.2 = completed) rows) +
   length (filter (λ kr : str * job, state kr.2 = failed) rows) +
   length (filter (λ kr : str * job, state kr.2 = dead) rows))%nat =
  length rows.
Proof.
  induction rows as [|[k r] rest IH]; [done|].
  rewrite !filter_cons. cbn [snd length].
  destruct (state r); repeat case_decide; try done; cbn [length]; lia.
Qed.

(** X17. [get_job_counts] maps the name of each state that has jobs to the
    number of jobs in it, and has no entry for a state without jobs (a
    reader gets that count with a default of 0) nor for anything that is
    not a state; the five counts add up to the number of jobs. *)
Theorem get_job_counts_exact (s : store) :
  (∀ st, count_of st (Store.get_job_counts s) = jobs_in_state st s) ∧
  (∀ st, Store.get_job_counts s !! state_name st = None ↔
         jobs_in_state st s = 0) ∧
  (∀ key n, Store.get_job_counts s !! key = Some n →
            0 < n ∧ ∃ st, key = state_name st ∧ n = jobs_in_state st s) ∧
  count_of pending (Store.get_job_counts s) +
  count_of processing (Store.get_job_counts s) +
  count_of completed (Store.get_job_counts s) +
  count_of failed (Store.get_job_counts s) +
  count_of dead (Store.get_job_counts s) = Z.of_nat (size (jobs s)).
Proof.
  assert (∀ st, count_of st (Store.get_job_counts s) = jobs_in_state st s)
    as Hcount.
  { intros st. unfold count_of, Store.get_job_counts, jobs_in_state.
    rewrite count_rows_lookup. cbv zeta. case_decide as Hn; simpl; [|done].
    by rewrite Hn. }
  split; [exact Hcount|]. split; [|split].
  - intros st. unfold Store.get_job_counts, jobs_in_state.
    rewrite count_rows_lookup. cbv zeta. case_decide; split; try done; lia.
  - intros key n Hn.
    destruct (count_rows_keys _ _ _ Hn) as [st ->].
    unfold Store.get_job_counts in Hn. rewrite count_rows_lookup in Hn.
    cbv zeta in Hn. case_decide; [done|]. injection Hn as <-.
    split; [lia|]. by exists st.
  - rewrite !Hcount. unfold jobs_in_state.
    rewrite <- length_map_to_list, <- (states_partition (map_to_list (jobs s))).
    lia.
Qed.

Lemma get_job_counts_exact_witness :
  Store.get_job_counts two_priorities !! lit "pending" = Some 2 ∧
  Store.get_job_counts two_priorities !! lit "dead" = None.
Proof.
  split.
  - destruct (Store.get_job_counts two_priorities !! lit "pending") as [n|] eqn:Hn.
    + destruct (proj1 (proj2 (proj2 (get_job_counts_exact two_priorities)))
                  (lit "pending") n Hn) as (_ & st & Hst & ->).
      apply (state_name_inj pending) in Hst as <-. vm_compute. reflexivity.
    + vm_compute in Hn. discriminate Hn.
  - apply (proj1 (proj2 (get_job_counts_exact two_priorities)) dead).
    vm_compute. reflexivity.
Defined.

(** ** The liveness test of the manager *)

(** X18. [is_manager_running] answers true exactly when the PID file holds
    a number for which [psutil] finds a process that is running, and then
    leaves the files alone.  When the PID file cannot be read as a number,
    or names no process, the answer is false and the PID file is removed.
    The call never touches the shutdown file and never creates a PID file,
    and asking again gives the same answer and changes nothing more. *)
Theorem is_manager_running_cleans_up (int_of_stripped : str → result Z)
    (psutil_Process : Z → WorkerManager.process_lookup)
    (fs : WorkerManager.files) :
  let answer := WorkerManager.is_manager_running int_of_stripped
                  psutil_Process fs in
  (answer.1 = true ↔
   ∃ text pid, WorkerManager.pid_file fs = Some text ∧
               int_of_stripped text = Ok pid ∧
               psutil_Process pid = WorkerManager.Process true) ∧
  (answer.1 = true → answer.2 = fs) ∧
  (∀ text, WorkerManager.pid_file fs = Some text →
           (∀ pid, int_of_stripped text = Ok pid →
                   ∀ running, psutil_Process pid ≠ WorkerManager.Process running) →
           answer = (false, WorkerManager.remove_pid_file fs)) ∧
  WorkerManager.shutdown_file answer.2 = WorkerManager.shutdown_file fs ∧
  (WorkerManager.pid_file answer.2 = None ∨ answer.2 = fs) ∧
  WorkerManager.is_manager_running int_of_stripped psutil_Process answer.2
    = answer.
Proof.
  unfold WorkerManager.is_manager_running.
  destruct (WorkerManager.pid_file fs) as [text|] eqn:Hfile.
  - destruct (int_of_stripped text) as [pid|e] eqn:Hpid.
    + destruct (psutil_Process pid) as [| |running] eqn:Hproc; simpl.
      * split; [split; [done|intros (? & ? & [= <-] & ? & ?); congruence]|].
        split; [done|]. split; [done|]. split; [done|]. split; [by left|done].
      * split; [split; [done|intros (? & ? & [= <-] & ? & ?); congruence]|].
        split; [done|]. split; [done|]. split; [done|]. split; [by left|done].
      * split.
        { split.
          - intros ->. by exists text, pid.
          - intros (? & ? & [= <-] & ? & ?). congruence. }
        split; [done|]. split.
        { intros ? [= <-] Hnone. by destruct (Hnone pid Hpid running). }
        split; [done|]. split; [by right|].
        by rewrite Hfile, Hpid, Hproc.
    + simpl.
      split; [split; [done|intros (? & ? & [= <-] & ? & ?); congruence]|].
      split; [done|]. split; [done|]. split; [done|]. split; [by left|done].
  - simpl. split; [split; [done|intros (? & ? & ? & _); done]|].
    split; [done|]. split; [done|]. split; [done|]. split; [by left|].
    by rewrite Hfile.
Qed.

Lemma is_manager_running_cleans_up_witness :
  WorkerManager.is_manager_running digits_int
    (λ _, WorkerManager.NoSuchProcess)
    {| WorkerManager.pid_file := Some (lit "4242");
       WorkerManager.shutdown_file := None |}
  = (false, {| WorkerManager.pid_file := None;
               WorkerManager.shutdown_file := None |}).
Proof.
  apply (proj1 (proj2 (proj2 (is_manager_running_cleans_up digits_int
                  (λ _, WorkerManager.NoSuchProcess)
                  {| WorkerManager.pid_file := Some (lit "4242");
                     WorkerManager.shutdown_file := None |})))
           (lit "4242") eq_refl).
  intros pid _ running Hfound. discriminate Hfound.
Defined.

(** ** Reading a number from the configuration *)



(** ** Scheduled jobs *)

(** X20. A job enqueued with a [next_run_at] while no other job is
    [pending] is handed out by [claim_job] exactly from the times on that
    are not before [next_run_at] in the order of texts, and always when it
    has no [next_run_at]; the first claim returns it with [attempts = 1]. *)
Theorem scheduled_job_waits (now later : str) (jd : job_data) (s : store) :
  jobs s !! jd_id jd = None →
  (∀ other r, jobs s !! other = Some r → state r ≠ pending) →
  ∃ s',
    Store.enqueue_job now jd s = Ok s' ∧
    ((match jd_next_run_at jd with
      | None => True
      | Some due => str_compare due later ≠ Gt
      end) ↔
     ∃ s2, Store.claim_job later s' =
             (Some (jd_id jd, Store.claim_set later (enqueued_row now jd)), s2)) ∧
    attempts (Store.claim_set later (enqueued_row now jd)) = 1%N.
Proof.
  intros Hfree Hidle. unfold Store.enqueue_job. rewrite Hfree.
  eexists. split; [reflexivity|]. split; [|done].
  fold (enqueued_row now jd).
  set (s' := with_jobs (<[jd_id jd := enqueued_row now jd]> (jobs s)) s).
  assert (jobs s' !! jd_id jd = Some (enqueued_row now jd)) as Hrow
    by apply lookup_insert_eq.
  assert (Store.claimable later (enqueued_row now jd) = true ↔
          match jd_next_run_at jd with
          | None => True
          | Some due => str_compare due later ≠ Gt
          end) as Hdue.
  { unfold Store.claimable, str_leb. simpl.
    destruct (jd_next_run_at jd) as [due|]; [|done].
    by destruct (str_compare due later). }
  rewrite <- Hdue. split.
  - intros Hcl.
    destruct (Store.claim_job later s') as [[[k rk]|] s2] eqn:Hclaim.
    + destruct (claim_job_some _ _ _ _ _ Hclaim) as (r0 & _ & Hr0 & Hcl0 & -> & _).
      destruct (decide (k = jd_id jd)) as [->|Hne].
      * assert (r0 = enqueued_row now jd) as -> by congruence. by exists s2.
      * unfold s' in Hr0. simpl in Hr0. rewrite lookup_insert_ne in Hr0 by done.
        apply claimable_pending in Hcl0. by destruct (Hidle k r0 Hr0).
    + destruct (claim_job_none _ _ _ Hclaim) as [_ Hsel].
      by rewrite (select_claimable_none _ _ Hsel _ _ Hrow) in Hcl.
  - intros [s2 Hclaim].
    destruct (claim_job_some _ _ _ _ _ Hclaim) as (r0 & _ & Hr0 & Hcl0 & _).
    by assert (r0 = enqueued_row now jd) as <- by congruence.
Qed.

Lemma scheduled_job_waits_witness :
  ∃ s',
    Store.enqueue_job t0
      {| jd_id := lit "j1"; jd_command := lit "echo"; jd_max_retries := None;
         jd_next_run_at := Some t1; jd_priority := None |} empty_store = Ok s' ∧
    (Store.claim_job t0 s').1 = None ∧
    fst <$> (Store.claim_job t2 s').1 = Some (lit "j1").
Proof.
  destruct (scheduled_job_waits t0 t2
              {| jd_id := lit "j1"; jd_command := lit "echo";
                 jd_max_retries := None; jd_next_run_at := Some t1;
                 jd_priority := None |} empty_store
              ltac:(reflexivity)
              ltac:(intros other r Hr; vm_compute in Hr; discriminate Hr))
    as (s' & Henqueue & Hdue & _).
  exists s'. split; [exact Henqueue|].
  injection Henqueue as <-. split; [vm_compute; reflexivity|].
  destruct (proj1 Hdue ltac:(vm_compute; discriminate)) as [s2 ->].
  reflexivity.
Defined.
